(** * tulsa_summary: the batch pipeline of [datatools/pipe.py]

    A shallow embedding of class [Pipe] (signal conditioning, per-file
    analysis, batch orchestration and the hierarchical reshape) and the
    properties of it that the design document states.

    The numerical work of the program is done by libraries that
    [pipe.py] only plumbs together (numpy, scipy.signal, pandas, dask,
    [daq.pico.CSV] and the sibling module [datatools.harmonic]).  Their
    values are kept abstract, behind the interface [Libraries]; what is
    embedded precisely is everything [pipe.py] itself decides: which
    columns are filtered and with which parameters, which fits are
    divided by which, what is written into which dictionary or table,
    and in what order. *)

From Stdlib Require Import ZArith QArith String List Lia Permutation.
From stdpp Require Import base list strings.

Local Open Scope string_scope.
Local Open Scope list_scope.

(** ** Column labels

    A plain name, or a (driver, detector, quantity) triple of a
    three-level [MultiIndex].  Labels are also the keys of the result
    records. *)

Inductive label : Type :=
| L1 (name : string)
| L3 (driver detector quantity : string).

Global Instance label_eq_dec : EqDecision label.
Proof. solve_decision. Defined.

(** ** Exceptions and results *)

Inductive exn : Type :=
| KeyError (keys : list label)
| AttributeError (attr : string)
| IndexError
| TypeError
| ValueError (msg : string)
| UnboundLocalError (name : string)
| NotModelled (what : string).

Inductive res (A : Type) : Type :=
| Ok (a : A)
| Err (e : exn).
Arguments Ok {A} a.
Arguments Err {A} e.

Definition res_bind {A B} (r : res A) (k : A → res B) : res B :=
  match r with
  | Ok a => k a
  | Err e => Err e
  end.

Definition is_ok {A} (r : res A) : bool :=
  match r with Ok _ => true | Err _ => false end.

(** ** Table cells

    A cell of a result table holds either a value copied from the batch
    descriptor (a Python scalar: file name, position, pipe identifier,
    ...) or a float computed by the analysis. *)

Inductive cell_of (O F : Type) : Type :=
| Key (v : O)
| Num (x : F).
Arguments Key {O F} v.
Arguments Num {O F} x.

(** ** The libraries [pipe.py] calls

    [obj] is the type of the Python scalars a batch-descriptor cell
    holds. *)

Class Libraries : Type := {
  obj : Type;
  (* numpy *)
  float : Type;
  ndarray : Type;
  float_lit : Q → float;
  nan : float;
  fmul : float → float → float;
  fdiv : float → float → float;
  fpow : float → Z → float;
  apow : ndarray → Z → ndarray;
  np_sum : ndarray → float;
  np_log10 : float → float;
  getitem : ndarray → Z → res float;
  alen : ndarray → nat;
  (* scipy.signal *)
  butter : Z → float → ndarray * ndarray;
  filtfilt : ndarray → ndarray → ndarray → Z → res ndarray;
  (* datatools.harmonic.Harmonic *)
  Harmonic : Type;
  fit : list Z → ndarray → ndarray → res Harmonic;
  derivative : Harmonic → Harmonic;
  truediv : Harmonic → Harmonic → res Harmonic;
  amplitudes : Harmonic → ndarray;
  phases : Harmonic → ndarray;
  (* daq.pico.CSV(...).df : column names with their sample arrays *)
  CSV : cell_of obj float → float → list (string * string)
        → res (nat * list (string * ndarray));
  (* pandas: the order index values are sorted by *)
  index_le : cell_of obj float → cell_of obj float → bool
}.

(** ** Python dictionaries: insertion-ordered, one entry per key *)

Section Dict.
Context {V : Type}.

Definition dict : Type := list (label * V).

(** [d.get(k)] *)
Fixpoint dict_get (d : dict) (k : label) : option V :=
  match d with
  | [] => None
  | (k', v) :: d' => if decide (k' = k) then Some v else dict_get d' k
  end.

(** [d[k] = v] *)
Fixpoint dict_set (d : dict) (k : label) (v : V) : dict :=
  match d with
  | [] => [(k, v)]
  | (k', v') :: d' =>
      if decide (k' = k) then (k', v) :: d' else (k', v') :: dict_set d' k v
  end.

(** [d.update(other)] *)
Definition dict_update (d other : dict) : dict :=
  fold_left (fun acc kv => dict_set acc kv.1 kv.2) other d.

Definition dict_keys (d : dict) : list label := map fst d.

(** [dict(k1=v1, ...)] and [{k: v for ...}] *)
Definition dict_of (kvs : list (label * V)) : dict := dict_update [] kvs.
End Dict.
Arguments dict V : clear implicits.

(** ** Stable sorting, as pandas sorts an index *)

Section Sort.
Context {A : Type} (le : A → A → bool).

Fixpoint insert_sorted (x : A) (l : list A) : list A :=
  match l with
  | [] => [x]
  | y :: l' => if le x y then x :: l else y :: insert_sorted x l'
  end.

Definition stable_sort (l : list A) : list A :=
  fold_right insert_sorted [] l.

(** Neighbours are in order. *)
Fixpoint sorted (l : list A) : bool :=
  match l with
  | [] => true
  | x :: l' =>
      match l' with
      | [] => true
      | y :: _ => le x y && sorted l'
      end
  end.
End Sort.

(** Labels of one kind are ordered as Python orders strings and tuples
    of strings. *)
Definition lex (c : comparison) (rest : bool) : bool :=
  match c with
  | Lt => true
  | Eq => rest
  | Gt => false
  end.

Definition label_le (a b : label) : bool :=
  match a, b with
  | L1 x, L1 y => String.leb x y
  | L3 d1 t1 q1, L3 d2 t2 q2 =>
      lex (String.compare d1 d2) (lex (String.compare t1 t2) (String.leb q1 q2))
  | L1 _, L3 _ _ _ => true
  | L3 _ _ _, L1 _ => false
  end.

Definition is_L1 (c : label) : bool :=
  match c with L1 _ => true | L3 _ _ _ => false end.

Module Pipe.
Section WithLibraries.
Context `{Lib : Libraries}.

(** ** Table cells and tables *)

Definition cell : Type := cell_of obj float.

(** A pandas [DataFrame] in row order.  Every row carries its index
    key (one cell per index level; no cell for the default
    [RangeIndex], whose key is the row's position) and one cell per
    column.  Column labels may repeat. *)
Record DataFrame : Type := {
  index_names : list string;
  column_names : list string;
  columns : list label;
  rows : list (list cell * list cell)
}.

(** The table a channel file is read into: a number of samples and
    one array per named column. *)
Record Trace : Type := {
  nsamples : nat;
  channels : list (string * ndarray)
}.

(** ** The object store

    [filter] writes into the table it is given and [_process_file]
    into the dictionary it is given, so tables and dictionaries live
    in a store and are passed by reference. *)

Inductive object : Type :=
| ODict (d : dict cell)
| OTrace (t : Trace).

Abbreviation loc := nat (only parsing).
Abbreviation heap := (list object) (only parsing).

Definition M (A : Type) : Type := heap → heap * res A.

Definition ret {A} (a : A) : M A := fun h => (h, Ok a).
Definition raise {A} (e : exn) : M A := fun h => (h, Err e).
Definition lift {A} (r : res A) : M A := fun h => (h, r).
Definition bind {A B} (m : M A) (k : A → M B) : M B :=
  fun h =>
    match m h with
    | (h', Ok a) => k a h'
    | (h', Err e) => (h', Err e)
    end.

Definition alloc (o : object) : M loc :=
  fun h => (h ++ [o], Ok (length h)).

Definition read_trace (l : loc) : M Trace :=
  fun h =>
    match h !! l with
    | Some (OTrace t) => (h, Ok t)
    | _ => (h, Err TypeError)
    end.

Definition read_dict (l : loc) : M (dict cell) :=
  fun h =>
    match h !! l with
    | Some (ODict d) => (h, Ok d)
    | _ => (h, Err TypeError)
    end.

Definition write (l : loc) (o : object) : M unit :=
  fun h => (<[l := o]> h, Ok tt).

Notation "'do' x <~ m ; k" := (bind m (fun x => k))
  (at level 10, x name, m at level 99, k at level 200, only parsing).

Fixpoint for_each {A} (xs : list A) (body : A → M unit) : M unit :=
  match xs with
  | [] => ret tt
  | x :: xs' => do _ <~ body x ; for_each xs' body
  end.

(** ** Columns of a channel table *)

(** [df[col].values] *)
Definition trace_get (t : Trace) (col : string) : res ndarray :=
  match List.filter (fun kv => bool_decide (kv.1 = col)) (channels t) with
  | [] => Err (KeyError [L1 col])
  | [kv] => Ok kv.2
  | _ => Err (NotModelled "repeated column label")
  end.

(** [df.loc[:, col] = y]: overwrites the column where it is, or
    appends it when there is none of that name. *)
Definition trace_set (t : Trace) (col : string) (y : ndarray) : res Trace :=
  if Nat.eqb (alen y) (nsamples t) then
    Ok {| nsamples := nsamples t;
          channels :=
            if existsb (fun kv => bool_decide (kv.1 = col)) (channels t)
            then map (fun kv => if decide (kv.1 = col) then (kv.1, y) else kv)
                     (channels t)
            else channels t ++ [(col, y)] |}
  else Err (ValueError "Length of values does not match length of index").

Definition getcol (df : loc) (col : string) : M ndarray :=
  do t <~ read_trace df ; lift (trace_get t col).

Definition setcol (df : loc) (col : string) (y : ndarray) : M unit :=
  do t <~ read_trace df ;
  do t' <~ lift (trace_set t col y) ;
  write df (OTrace t').

(** [df.col]: attribute access to a column. *)
Definition attr (t : Trace) (col : string) : res ndarray :=
  match trace_get t col with
  | Err (KeyError _) => Err (AttributeError col)
  | r => r
  end.

Definition getattr (df : loc) (col : string) : M ndarray :=
  do t <~ read_trace df ; lift (attr t col).

(** ** class Pipe *)

Record PipeObj : Type := {
  df_log : DataFrame;
  channel_mapper : list (string * string);
  n_jobs : Z;
  harmonics : list Z;
  verbose : bool;
  _df : option DataFrame
}.

(** [Pipe.__init__] *)
Definition __init__ (df_log_batch : DataFrame)
    (channel_mapper : list (string * string))
    (n_jobs : Z) (verbose : bool) (harmonic : Z) : PipeObj :=
  {| df_log := df_log_batch;
     channel_mapper := channel_mapper;
     n_jobs := n_jobs;
     harmonics := [1%Z; harmonic];
     verbose := verbose;
     _df := None |}.

(** [Pipe.filter].  The defaults of [signal.butter] (low-pass,
    digital, cut-off as a fraction of the Nyquist frequency) and of
    [signal.filtfilt] (odd extension at the edges) are what the
    interface's [butter] and [filtfilt] stand for. *)
Definition filter_cols : list string := ["res_volt"; "sec_volt"; "rec_volt"].

Definition filter (df : loc) : M loc :=
  do _ <~ for_each filter_cols (fun col =>
         let '(b, a) := butter 8 (float_lit (1 # 100)) in
         do x <~ getcol df col ;
         do y <~ lift (filtfilt b a x 150) ;
         setcol df col y) ;
  ret df.

(** [Pipe._process_file].  The progress line printed when [verbose]
    is set goes to standard output, which is not part of the state
    modelled here. *)
Definition _process_file (self : PipeObj) (file_name : cell) (key_dict : loc)
  : M loc :=
  do tbl <~ lift (CSV file_name (float_lit (1000000000 # 1)) (channel_mapper self)) ;
  do df <~ alloc (OTrace {| nsamples := tbl.1; channels := tbl.2 |}) ;
  do df <~ filter df ;
  (* fit the primary current *)
  do t <~ getattr df "t" ;
  do x <~ getattr df "res_volt" ;
  do h_i_prim <~ lift (fit (harmonics self) t x) ;
  (* induced voltage proportional to derivative of current *)
  let h_i_prim := derivative h_i_prim in
  (* fit the secondary voltage *)
  do t <~ getattr df "t" ;
  do x <~ getattr df "sec_volt" ;
  do h_v_sec <~ lift (fit (harmonics self) t x) ;
  (* fit the receiver voltage *)
  do t <~ getattr df "t" ;
  do x <~ getattr df "rec_volt" ;
  do h_v_rec <~ lift (fit (harmonics self) t x) ;
  (* the three ratio objects *)
  do h_z_prim_sec <~ lift (truediv h_v_sec h_i_prim) ;
  do h_z_prim_rec <~ lift (truediv h_v_rec h_i_prim) ;
  do h_z_sec_rec <~ lift (truediv h_v_rec h_v_sec) ;
  let out := key_dict in
  do prim_sec_amp <~ lift (getitem (amplitudes h_z_prim_sec) 0) ;
  do prim_sec_phi <~ lift (getitem (phases h_z_prim_sec) 0) ;
  do prim_rec_amp <~ lift (getitem (amplitudes h_z_prim_rec) 0) ;
  do prim_rec_phi <~ lift (getitem (phases h_z_prim_rec) 0) ;
  do sec_rec_amp <~ lift (getitem (amplitudes h_z_sec_rec) 0) ;
  do sec_rec_phi <~ lift (getitem (phases h_z_sec_rec) 0) ;
  do sec_h <~ lift (getitem (amplitudes h_v_sec) 1) ;
  let sec_harm_db :=
    fmul (float_lit 10)
         (np_log10 (fdiv (fpow sec_h 2)
                         (np_sum (apow (amplitudes h_v_sec) 2)))) in
  do rec_h <~ lift (getitem (amplitudes h_v_rec) 1) ;
  let rec_harm_db :=
    fmul (float_lit 10)
         (np_log10 (fdiv (fpow rec_h 2)
                         (np_sum (apow (amplitudes h_v_rec) 2)))) in
  let rec :=
    dict_of [(L1 "prim_sec_amp", Num prim_sec_amp);
             (L1 "prim_sec_phi", Num prim_sec_phi);
             (L1 "prim_rec_amp", Num prim_rec_amp);
             (L1 "prim_rec_phi", Num prim_rec_phi);
             (L1 "sec_rec_amp", Num sec_rec_amp);
             (L1 "sec_rec_phi", Num sec_rec_phi);
             (L1 "sec_harm_db", Num sec_harm_db);
             (L1 "rec_harm_db", Num rec_harm_db)] in
  do d <~ read_dict out ;
  do _ <~ write out (ODict (dict_update d rec)) ;
  ret out.

(** ** Rows of a table *)

(** Does the key [k] select column [c]?  A plain name also selects,
    as a partial key, the columns of a [MultiIndex] whose first level
    it is. *)
Definition selects (k c : label) : bool :=
  match k, c with
  | L1 s, L3 d _ _ => bool_decide (s = d)
  | _, _ => bool_decide (k = c)
  end.

(** [row[k]] for a row of [iterrows]: a scalar when [k] names exactly
    one column. *)
Definition series_get (cols : list label) (vals : list cell) (k : label)
  : res cell :=
  match List.filter (fun cv => selects k cv.1) (zip cols vals) with
  | [] => Err (KeyError [k])
  | [(c, v)] => if decide (c = k) then Ok v
                else Err (NotModelled "partial key into a MultiIndex")
  | _ => Err (NotModelled "label selects several columns")
  end.

Fixpoint mapM {A B} (f : A → M B) (xs : list A) : M (list B) :=
  match xs with
  | [] => ret []
  | x :: xs' => do y <~ f x ; do ys <~ mapM f xs' ; ret (y :: ys)
  end.

(** [pd.DataFrame(rec_list, columns=columns)]: one row per record,
    in the order of the list; a field a record lacks is a NaN. *)
Definition DataFrame_of_records (recs : list (dict cell)) (cols : list label)
  : DataFrame :=
  {| index_names := [];
     column_names := [];
     columns := cols;
     rows := map (fun r => ([], map (fun c => default (Num nan) (dict_get r c)) cols))
                 recs |}.

(** ** Futures

    With [fake_delayed] a "future" is the result itself: the call has
    run by the time the future exists.  With [dask.delayed] it is a
    task that holds the function and its arguments; a dictionary
    argument is taken apart when the task is built and put together
    again, as a new dictionary, in the worker that runs it. *)
Inductive future : Type :=
| Result (r : loc)
| Task (func : cell → loc → M loc) (file_name : cell) (key_dict : dict cell).

Definition fake_delayed (func : cell → loc → M loc)
  : cell → loc → M future :=
  fun file_name key_dict => do r <~ func file_name key_dict ; ret (Result r).

Definition delayed (func : cell → loc → M loc)
  : cell → loc → M future :=
  fun file_name key_dict =>
    do d <~ read_dict key_dict ; ret (Task func file_name d).

(** [fake_compute]: hands the futures back. *)
Definition fake_compute (future_list : list future) : M (list loc) :=
  mapM (fun f => match f with
                 | Result r => ret r
                 | Task _ _ _ => raise TypeError
                 end) future_list.

(** A worker process runs a task in a store of its own and sends the
    dictionary it returns back by value. *)
Definition run_worker (func : cell → loc → M loc) (file_name : cell)
    (key_dict : dict cell) : res (dict cell) :=
  match func file_name 0 [ODict key_dict] with
  | (h, Ok out) =>
      match h !! out with
      | Some (ODict d) => Ok d
      | _ => Err TypeError
      end
  | (_, Err e) => Err e
  end.

(** The tasks complete in the order [completion] (positions in the
    argument list); each result is filed under the position of its
    task.  The first task to fail ends the computation. *)
Fixpoint run_tasks (completion : list nat) (future_list : list future)
    (finished : list (nat * dict cell)) : res (list (nat * dict cell)) :=
  match completion with
  | [] => Ok finished
  | i :: rest =>
      match future_list !! i with
      | Some (Task func file_name key_dict) =>
          match run_worker func file_name key_dict with
          | Ok d => run_tasks rest future_list ((i, d) :: finished)
          | Err e => Err e
          end
      | _ => run_tasks rest future_list finished
      end
  end.

Fixpoint assoc {A} (i : nat) (l : list (nat * A)) : option A :=
  match l with
  | [] => None
  | (j, a) :: l' => if decide (j = i) then Some a else assoc i l'
  end.

(** [dask.compute] over the futures, on the process scheduler: the
    results come back as a tuple in the order of the arguments. *)
Definition compute (completion : list nat) (future_list : list future)
  : M (list loc) :=
  do finished <~ lift (run_tasks completion future_list []) ;
  mapM (fun '(i, f) =>
          match f with
          | Result r => ret r
          | Task _ _ _ =>
              match assoc i finished with
              | Some d => alloc (ODict d)
              | None => raise (NotModelled "a task that never completes")
              end
          end)
       (zip (seq 0 (length future_list)) future_list).

Definition derived_columns : list label :=
  [L1 "prim_sec_amp"; L1 "prim_sec_phi";
   L1 "prim_rec_amp"; L1 "prim_rec_phi";
   L1 "sec_rec_amp"; L1 "sec_rec_phi";
   L1 "sec_harm_db"; L1 "rec_harm_db"].

(** The loop of [Pipe.process] over [self.df_log.iterrows()], with
    the two variables it assigns: [future_list] and [key_dict] (not
    bound before the first row). *)
Fixpoint process_rows (delay_func : cell → loc → M future)
    (cols key_names : list label) (rws : list (list cell * list cell))
    (future_list : list future) (key_dict : option loc)
  : M (list future * option loc) :=
  match rws with
  | [] => ret (future_list, key_dict)
  | (_, row) :: rws' =>
      do file_name <~ lift (series_get cols row (L1 "file_name")) ;
      do items <~ mapM (fun k => do v <~ lift (series_get cols row k) ; ret (k, v))
                       key_names ;
      do key_dict <~ alloc (ODict (dict_of items)) ;
      do fut <~ delay_func file_name key_dict ;
      process_rows delay_func cols key_names rws'
                   (future_list ++ [fut]) (Some key_dict)
  end.

(** [Pipe.process].  [completion] is the order in which the worker
    pool happens to finish the tasks; the argument [indexed] is not
    used by the method. *)
Definition process (self : PipeObj) (indexed : bool) (completion : list nat)
  : M (PipeObj * DataFrame) :=
  let delay_func :=
    if (1 <? n_jobs self)%Z then delayed (_process_file self)
    else fake_delayed (_process_file self) in
  let compute_func :=
    if (1 <? n_jobs self)%Z then compute completion else fake_compute in
  let key_names :=
    List.filter (fun c => negb (bool_decide (c = L1 "file_name")))
                (columns (df_log self)) in
  do st <~ process_rows delay_func (columns (df_log self)) key_names
                        (rows (df_log self)) [] None ;
  let '(future_list, key_dict) := st in
  do rec_list <~ compute_func future_list ;
  do keys <~ match key_dict with
             | Some l => do d <~ read_dict l ; ret (dict_keys d)
             | None => raise (UnboundLocalError "key_dict")
             end ;
  let columns := keys ++ derived_columns in
  do recs <~ mapM read_dict rec_list ;
  let df := DataFrame_of_records recs columns in
  ret ({| df_log := df_log self;
          channel_mapper := channel_mapper self;
          n_jobs := n_jobs self;
          harmonics := harmonics self;
          verbose := verbose self;
          _df := Some df |}, df).

(** ** The reshape *)

Notation "'do?' x <~ m ; k" := (res_bind m (fun x => k))
  (at level 10, x name, m at level 99, k at level 200, only parsing).

(** [df.set_index(keys)]: a new table whose rows are indexed by the
    cells of the key columns, which stop being columns.  Uniqueness of
    the keys is not checked ([verify_integrity] is off by default). *)
Definition set_index (keys : list string) (df : DataFrame) : res DataFrame :=
  let cols := columns df in
  let is_key (c : label) := bool_decide (c ∈ map L1 keys) in
  match List.filter (fun k => negb (existsb (selects (L1 k)) cols)) keys with
  | k :: ks => Err (KeyError (map L1 (k :: ks)))
  | [] =>
      if forallb (fun k => bool_decide (List.filter (selects (L1 k)) cols = [L1 k]))
                 keys
      then
        Ok {| index_names := keys;
              column_names := column_names df;
              columns := List.filter (fun c => negb (is_key c)) cols;
              rows :=
                map (fun r =>
                       let cvs := zip cols r.2 in
                       (flat_map (fun k =>
                                    map snd (List.filter
                                               (fun cv => bool_decide (cv.1 = L1 k)) cvs))
                                 keys,
                        map snd (List.filter (fun cv => negb (is_key cv.1)) cvs)))
                    (rows df) |}
      else Err (NotModelled "key selects several columns")
  end.

(** [pd.MultiIndex.from_arrays(arrays, names=...)] for three arrays. *)
Definition from_arrays (arrays : list (list string)) : res (list label) :=
  match arrays with
  | [ds; ts; qs] =>
      if Nat.eqb (length ds) (length ts) && Nat.eqb (length ds) (length qs)
      then Ok (map (fun x => L3 x.1.1 x.1.2 x.2) (zip (zip ds ts) qs))
      else Err (ValueError "all arrays must be same length")
  | _ => Err (NotModelled "a MultiIndex of other than three levels")
  end.

(** [df.columns = labels]: by position. *)
Definition set_columns (df : DataFrame) (names : list string)
    (labels : list label) : res DataFrame :=
  if Nat.eqb (length labels) (length (columns df))
  then Ok {| index_names := index_names df;
             column_names := names;
             columns := labels;
             rows := rows df |}
  else Err (ValueError "Length mismatch").

(** [df.sort_index(axis=1)] *)
Definition sort_columns (df : DataFrame) : res DataFrame :=
  if forallb is_L1 (columns df) || forallb (fun c => negb (is_L1 c)) (columns df)
  then
    Ok {| index_names := index_names df;
          column_names := column_names df;
          columns := stable_sort label_le (columns df);
          rows :=
            map (fun r =>
                   (r.1, map snd (stable_sort (fun a b => label_le a.1 b.1)
                                              (zip (columns df) r.2))))
                (rows df) |}
  else Err TypeError.

(** Index keys are compared level by level. *)
Fixpoint key_le (a b : list cell) : bool :=
  match a, b with
  | [], _ => true
  | _ :: _, [] => false
  | x :: a', y :: b' =>
      if index_le x y then (if index_le y x then key_le a' b' else true)
      else false
  end.

(** [df.sort_index()] *)
Definition sort_index (df : DataFrame) : DataFrame :=
  {| index_names := index_names df;
     column_names := column_names df;
     columns := columns df;
     rows := stable_sort (fun r1 r2 => key_le r1.1 r2.1) (rows df) |}.

Definition arrays : list (list string) :=
  [["primary"; "primary"; "primary"; "primary"; "sec"; "sec"; "primary"; "primary"];
   ["secondary"; "secondary"; "receiver"; "receiver"; "receiver"; "receiver";
    "secondary"; "secondary"];
   ["amplitude"; "phase"; "amplitude"; "phase"; "amplitude"; "phase"; "db"; "db"]].

(** The labels [from_arrays] makes of [arrays], in the order of the
    arrays and in sorted order. *)
Definition code_labels : list label :=
  Eval vm_compute in
    match from_arrays arrays with Ok ls => ls | Err _ => [] end.

Definition sorted_labels : list label :=
  Eval vm_compute in stable_sort label_le code_labels.

(** The two sorts that end [_indexify], applied to the table that
    [set_index] returns once its columns carry the labels of the code. *)
Definition reshaped_rows (rws : list (list cell * list cell))
  : list (list cell * list cell) :=
  stable_sort (fun r1 r2 => key_le r1.1 r2.1)
    (map (fun r => (r.1, map snd (stable_sort (fun a b => label_le a.1 b.1)
                                              (zip code_labels r.2))))
         rws).

(** [Pipe._indexify] *)
Definition _indexify (df : DataFrame) : res DataFrame :=
  do? df <~ set_index ["pipe"; "pos"] df ;
  do? labels <~ from_arrays arrays ;
  do? df <~ set_columns df ["driver"; "detector"; "quantity"] labels ;
  do? df <~ sort_columns df ;
  Ok (sort_index df).

(** The properties [Pipe.df] and [Pipe.df_indexed]. *)
Definition df (self : PipeObj) : res DataFrame :=
  match _df self with
  | Some d => Ok d
  | None => Err (AttributeError "copy")
  end.

Definition df_indexed (self : PipeObj) : res DataFrame :=
  match _df self with
  | Some d => _indexify d
  | None => Err (AttributeError "set_index")
  end.

(** ** Functional readings

    What [filter] leaves in the table it was given, and what
    [_process_file] adds to the dictionary it was given, as functions of
    what the table held.  [filter_succeeds] and [_process_file_succeeds]
    below relate them to the two methods. *)

(** The filter every filtered column goes through: the coefficients of
    [butter(8, 0.01)], applied by [filtfilt] with [padlen=150]. *)
Definition butter_filtfilt (x : ndarray) : res ndarray :=
  filtfilt (butter 8 (float_lit (1 # 100))).1
           (butter 8 (float_lit (1 # 100))).2 x 150.

Definition filter_column (t : Trace) (col : string) : res Trace :=
  let '(b, a) := butter 8 (float_lit (1 # 100)) in
  do? x <~ trace_get t col ;
  do? y <~ filtfilt b a x 150 ;
  trace_set t col y.

Definition filtered (t : Trace) : res Trace :=
  do? t <~ filter_column t "res_volt" ;
  do? t <~ filter_column t "sec_volt" ;
  filter_column t "rec_volt".

Definition harm_db (h : Harmonic) : res float :=
  do? a <~ getitem (amplitudes h) 1 ;
  Ok (fmul (float_lit 10)
           (np_log10 (fdiv (fpow a 2) (np_sum (apow (amplitudes h) 2))))).

Definition summary (self : PipeObj) (df : Trace) : res (dict cell) :=
  do? t <~ attr df "t" ;
  do? x <~ attr df "res_volt" ;
  do? h_i_prim <~ fit (harmonics self) t x ;
  let h_i_prim := derivative h_i_prim in
  do? t <~ attr df "t" ;
  do? x <~ attr df "sec_volt" ;
  do? h_v_sec <~ fit (harmonics self) t x ;
  do? t <~ attr df "t" ;
  do? x <~ attr df "rec_volt" ;
  do? h_v_rec <~ fit (harmonics self) t x ;
  do? h_z_prim_sec <~ truediv h_v_sec h_i_prim ;
  do? h_z_prim_rec <~ truediv h_v_rec h_i_prim ;
  do? h_z_sec_rec <~ truediv h_v_rec h_v_sec ;
  do? prim_sec_amp <~ getitem (amplitudes h_z_prim_sec) 0 ;
  do? prim_sec_phi <~ getitem (phases h_z_prim_sec) 0 ;
  do? prim_rec_amp <~ getitem (amplitudes h_z_prim_rec) 0 ;
  do? prim_rec_phi <~ getitem (phases h_z_prim_rec) 0 ;
  do? sec_rec_amp <~ getitem (amplitudes h_z_sec_rec) 0 ;
  do? sec_rec_phi <~ getitem (phases h_z_sec_rec) 0 ;
  do? sec_harm_db <~ harm_db h_v_sec ;
  do? rec_harm_db <~ harm_db h_v_rec ;
  Ok (dict_of [(L1 "prim_sec_amp", Num prim_sec_amp);
               (L1 "prim_sec_phi", Num prim_sec_phi);
               (L1 "prim_rec_amp", Num prim_rec_amp);
               (L1 "prim_rec_phi", Num prim_rec_phi);
               (L1 "sec_rec_amp", Num sec_rec_amp);
               (L1 "sec_rec_phi", Num sec_rec_phi);
               (L1 "sec_harm_db", Num sec_harm_db);
               (L1 "rec_harm_db", Num rec_harm_db)]).

(** The record of one file: what the file holds, filtered and
    summarised, written over the key fields. *)
Definition record (self : PipeObj) (file_name : cell) (keys : dict cell)
  : res (dict cell) :=
  do? tbl <~ CSV file_name (float_lit (1000000000 # 1)) (channel_mapper self) ;
  do? df <~ filtered {| nsamples := tbl.1; channels := tbl.2 |} ;
  do? fields <~ summary self df ;
  Ok (dict_update keys fields).

(** The key fields of a descriptor row: [{k: row[k] for k in key_names}]. *)
Fixpoint items_of (cols : list label) (row : list cell) (ks : list label)
  : res (list (label * cell)) :=
  match ks with
  | [] => Ok []
  | k :: ks' =>
      do? v <~ series_get cols row k ;
      do? rest <~ items_of cols row ks' ;
      Ok ((k, v) :: rest)
  end.

(** The unit of work of one descriptor row, run on its own: the file of
    the row, analysed by [_process_file] in a store that holds nothing
    but the key fields of the row. *)
Definition unit_of_work (self : PipeObj) (r : list cell * list cell)
  : res (dict cell) :=
  let cols := columns (df_log self) in
  do? file_name <~ series_get cols r.2 (L1 "file_name") ;
  do? items <~ items_of cols r.2
                 (List.filter (fun c => negb (bool_decide (c = L1 "file_name"))) cols) ;
  run_worker (_process_file self) file_name (dict_of items).

(** The variable [key_dict] after the loop: the dictionary of the last
    row, or what it was before when there was no row. *)
Definition last_or (kdo : option nat) (locs : list nat) : option nat :=
  match last locs with
  | Some l => Some l
  | None => kdo
  end.

(** The row of the result table made from a record. *)
Definition table_row (cols : list label) (rec : dict cell)
  : list cell * list cell :=
  ([], map (fun c => default (Num nan) (dict_get rec c)) cols).

(** The cells of a row that stand under the label [c]. *)
Definition under (cols : list label) (c : label) (vals : list cell) : list cell :=
  map snd (List.filter (fun cv => bool_decide (cv.1 = c)) (zip cols vals)).

(** The index key [set_index] gives a row of the flat table: its cell
    under ["pipe"], then its cell under ["pos"]. *)
Definition key_of (df : DataFrame) (r : list cell * list cell) : list cell :=
  under (columns df) (L1 "pipe") r.2 ++ under (columns df) (L1 "pos") r.2.

(** The rows of the flat table in the order of their index keys. *)
Definition rows_by_key (df : DataFrame) : list (list cell * list cell) :=
  stable_sort (fun r1 r2 => key_le (key_of df r1) (key_of df r2)) (rows df).

(** In the reshaped table [t], the cells that the flat table [df] has in
    its column [c] stand, row by row, in one column whose label
    satisfies [P]. *)
Definition relabelled (df t : DataFrame) (c : string) (P : label → bool) : Prop :=
  ∃ j L, columns t !! j = Some L ∧ P L = true
         ∧ Forall2 (fun r r' => r'.1 = key_of df r
                                ∧ r'.2 !! j = head (under (columns df) (L1 c) r.2))
                   (rows_by_key df) (rows t).

(** The record [d] holds, in its field [name], the float [r] evaluates
    to. *)
Definition holds (d : dict cell) (name : string) (r : res float) : Prop :=
  ∃ a, r = Ok a ∧ dict_get d (L1 name) = Some (Num a).


End WithLibraries.
End Pipe.

(** ** class Procesor of [process_all.py]

    Only [run] and the constants it passes to [Pipe] are embedded.  The
    frame of files to process comes from the file system and from two
    log files, through [os.walk], a regular expression and pandas joins
    and groupings; it is an argument here. *)

Module Procesor.
Section WithLibraries.
Context `{Lib : Libraries}.

Definition channel_mapper : list (string * string) :=
  [("a", "sig_gen"); ("b", "res_volt"); ("c", "rec_volt"); ("d", "sec_volt")].

(** [dfr.to_csv(results_file, index=False)]: what is written is the
    header and, row by row, the cells of the columns; the index is left
    out. *)
Definition to_csv (df : Pipe.DataFrame) : list label * list (list Pipe.cell) :=
  (Pipe.columns df, map snd (Pipe.rows df)).

(** [Procesor.run]: [dfp] is what [_get_processing_frame] returns.
    [Pipe] is built with its defaults [verbose=True] and [harmonic=3];
    the result is the content of the results file. *)
Definition run (dfp : Pipe.DataFrame) (n_jobs : Z) (completion : list nat)
  : Pipe.M (list label * list (list Pipe.cell)) :=
  let pipe := Pipe.__init__ dfp channel_mapper n_jobs true 3 in
  Pipe.bind (Pipe.process pipe false completion) (fun st =>
  Pipe.ret (to_csv st.2)).

End WithLibraries.
End Procesor.

(** ** A symbolic instance of the libraries

    Every library value is the expression that produced it, so that a
    result shows which calls [pipe.py] made and on what.  The channel
    reader knows the files by name: ["short.csv"] has 100 samples per
    channel, any other file 200.  The zero-phase filter refuses a trace
    that is not longer than its padding, and a ratio of fits refuses
    operands fitted on different harmonic sets. *)

Module Sym.

Inductive pyscalar : Type :=
| PInt (z : Z)
| PStr (s : string).

Inductive sfloat : Type :=
| FLit (q : Q)
| FNan
| FMul (a b : sfloat)
| FDiv (a b : sfloat)
| FPow (a : sfloat) (n : Z)
| FSum (a : sarray)
| FLog10 (a : sfloat)
| FItem (a : sarray) (i : Z)
with sarray : Type :=
| ARaw (file channel : string) (n : nat)
| AButterB (order : Z) (wn : sfloat)
| AButterA (order : Z) (wn : sfloat)
| AFiltfilt (b a x : sarray) (padlen : Z)
| APow (a : sarray) (n : Z)
| AAmplitudes (h : sharm)
| APhases (h : sharm)
with sharm : Type :=
| HFit (harmonics : list Z) (t x : sarray)
| HDerivative (h : sharm)
| HDiv (num den : sharm).

Fixpoint harmonics_of (h : sharm) : list Z :=
  match h with
  | HFit hs _ _ => hs
  | HDerivative h' => harmonics_of h'
  | HDiv num _ => harmonics_of num
  end.

Fixpoint len (a : sarray) : nat :=
  match a with
  | ARaw _ _ n => n
  | AButterB order _ | AButterA order _ => Z.to_nat (order + 1)
  | AFiltfilt _ _ x _ => len x
  | APow a' _ => len a'
  | AAmplitudes h | APhases h => length (harmonics_of h)
  end.

Definition item (a : sarray) (i : Z) : res sfloat :=
  if (0 <=? i)%Z && (i <? Z.of_nat (len a))%Z then Ok (FItem a i)
  else Err IndexError.

Definition zero_phase (b a x : sarray) (padlen : Z) : res sarray :=
  if (padlen <? Z.of_nat (len x))%Z then Ok (AFiltfilt b a x padlen)
  else Err (ValueError "The length of the input vector x must be greater than padlen").

Definition ratio (num den : sharm) : res sharm :=
  if decide (harmonics_of num = harmonics_of den) then Ok (HDiv num den)
  else Err (ValueError "harmonic sets differ").

Definition read_csv (file_name : cell_of pyscalar sfloat) (max_sample_freq : sfloat)
    (channel_mapper : list (string * string))
  : res (nat * list (string * sarray)) :=
  match file_name with
  | Key (PStr f) =>
      let n := if decide (f = "short.csv") then 100 else 200 in
      Ok (n, ("t", ARaw f "t" n)
               :: map (fun kv => (kv.2, ARaw f kv.1 n)) channel_mapper)
  | _ => Err TypeError
  end.

Definition cell_le (a b : cell_of pyscalar sfloat) : bool :=
  match a, b with
  | Key (PInt x), Key (PInt y) => (x <=? y)%Z
  | Key (PStr x), Key (PStr y) => String.leb x y
  | Key (PInt _), Key (PStr _) => true
  | Key (PStr _), Key (PInt _) => false
  | Key _, Num _ => true
  | Num _, Key _ => false
  | Num _, Num _ => true
  end.

#[export] Instance libraries : Libraries := {|
  obj := pyscalar;
  float := sfloat;
  ndarray := sarray;
  float_lit := FLit;
  nan := FNan;
  fmul := FMul;
  fdiv := FDiv;
  fpow := FPow;
  apow := APow;
  np_sum := FSum;
  np_log10 := FLog10;
  getitem := item;
  alen := len;
  butter := fun order wn => (AButterB order wn, AButterA order wn);
  filtfilt := zero_phase;
  Harmonic := sharm;
  fit := fun hs t x => Ok (HFit hs t x);
  derivative := HDerivative;
  truediv := ratio;
  amplitudes := AAmplitudes;
  phases := APhases;
  CSV := read_csv;
  index_le := cell_le
|}.

(** *** Inputs for the examples *)

(** The channel mapping of [process_all.py]. *)
Definition mapper : list (string * string) :=
  [("a", "sig_gen"); ("b", "res_volt"); ("c", "rec_volt"); ("d", "sec_volt")].

(** The table of the file ["a.csv"], as read, alone in a store. *)
Definition trace0 : Pipe.Trace :=
  {| Pipe.nsamples := 200;
     Pipe.channels := [("t", ARaw "a.csv" "t" 200);
                       ("sig_gen", ARaw "a.csv" "a" 200);
                       ("res_volt", ARaw "a.csv" "b" 200);
                       ("rec_volt", ARaw "a.csv" "c" 200);
                       ("sec_volt", ARaw "a.csv" "d" 200)] |}.

Definition heap0 : list Pipe.object := [Pipe.OTrace trace0].

(** The store after [filter] has run on it. *)
Definition heap1 : list Pipe.object :=
  Eval vm_compute in (Pipe.filter 0 heap0).1.

(** A batch of three files; the last two are at the same position of
    the same pipe. *)
Definition log3 : Pipe.DataFrame :=
  {| Pipe.index_names := [];
     Pipe.column_names := [];
     Pipe.columns := [L1 "pipe"; L1 "pos"; L1 "file_name"];
     Pipe.rows := [([], [Key (PStr "P1"); Key (PInt 2); Key (PStr "a.csv")]);
                   ([], [Key (PStr "P1"); Key (PInt 1); Key (PStr "b.csv")]);
                   ([], [Key (PStr "P1"); Key (PInt 1); Key (PStr "c.csv")])] |}.

(** A batch without rows. *)
Definition log0 : Pipe.DataFrame :=
  {| Pipe.index_names := [];
     Pipe.column_names := [];
     Pipe.columns := [L1 "pipe"; L1 "pos"; L1 "file_name"];
     Pipe.rows := [] |}.

Definition pipe_sequential : Pipe.PipeObj := Pipe.__init__ log3 mapper 1 true 3.
Definition pipe_parallel : Pipe.PipeObj := Pipe.__init__ log3 mapper 2 true 3.
Definition pipe_empty : Pipe.PipeObj := Pipe.__init__ log0 mapper 2 true 3.

(** The records of the three files. *)
Definition records3 : list (dict (cell_of pyscalar sfloat)) :=
  Eval vm_compute in
    map (fun r => match Pipe.unit_of_work pipe_parallel r with
                  | Ok d => d
                  | Err _ => []
                  end) (Pipe.rows log3).

(** The table [process] returns for the parallel pipe. *)
Definition table3 : Pipe.DataFrame :=
  Eval vm_compute in
    match (Pipe.process pipe_parallel false [2; 0; 1] []).2 with
    | Ok st => st.2
    | Err _ => log3
    end.

(** The key fields of the first row, alone in a store, and the store
    after [_process_file] has run on the file of the row. *)
Definition keys0 : dict (cell_of pyscalar sfloat) :=
  [(L1 "pipe", Key (PStr "P1")); (L1 "pos", Key (PInt 2))].

Definition heap2 : list Pipe.object :=
  Eval vm_compute in
    (Pipe._process_file pipe_sequential (Key (PStr "a.csv")) 0 [Pipe.ODict keys0]).1.

(** A flat result table whose last two rows share their key. *)
Definition flat3 : Pipe.DataFrame :=
  {| Pipe.index_names := [];
     Pipe.column_names := [];
     Pipe.columns := L1 "pipe" :: L1 "pos" :: Pipe.derived_columns;
     Pipe.rows :=
       map (fun r : Z * Z =>
              ([], Key (PStr "P1") :: Key (PInt r.1)
                     :: map (fun i => Num (FLit (inject_Z (r.2 + i))))
                            [1; 2; 3; 4; 5; 6; 7; 8]%Z))
           [(2, 0); (1, 10); (1, 20)]%Z |}.

(** The table [_indexify] makes of it. *)
Definition reshaped3 : Pipe.DataFrame :=
  Eval vm_compute in
    match Pipe._indexify flat3 with
    | Ok t => t
    | Err _ => flat3
    end.

(** The table of the file ["short.csv"], as read: its 100 samples are
    fewer than the padding of the filter. *)
Definition trace_short : Pipe.Trace :=
  {| Pipe.nsamples := 100;
     Pipe.channels := [("t", ARaw "short.csv" "t" 100);
                       ("sig_gen", ARaw "short.csv" "a" 100);
                       ("res_volt", ARaw "short.csv" "b" 100);
                       ("rec_volt", ARaw "short.csv" "c" 100);
                       ("sec_volt", ARaw "short.csv" "d" 100)] |}.

Definition heap_short : list Pipe.object := [Pipe.OTrace trace_short].

(** A table that has no secondary channel. *)
Definition trace_nosec : Pipe.Trace :=
  {| Pipe.nsamples := 200;
     Pipe.channels := [("t", ARaw "a.csv" "t" 200);
                       ("sig_gen", ARaw "a.csv" "a" 200);
                       ("res_volt", ARaw "a.csv" "b" 200);
                       ("rec_volt", ARaw "a.csv" "c" 200)] |}.

Definition heap_nosec : list Pipe.object := [Pipe.OTrace trace_nosec].

(** What the filter makes of the drive channel of ["a.csv"]. *)
Definition res_volt_filtered : sarray :=
  AFiltfilt (AButterB 8 (FLit (1 # 100))) (AButterA 8 (FLit (1 # 100)))
            (ARaw "a.csv" "b" 200) 150.

Definition too_short : exn :=
  ValueError "The length of the input vector x must be greater than padlen".

(** The store after [_process_file] has failed on ["short.csv"]. *)
Definition heap_failed : list Pipe.object :=
  Eval vm_compute in
    (Pipe._process_file pipe_sequential (Key (PStr "short.csv")) 0
                        [Pipe.ODict keys0]).1.

(** A descriptor without a ["file_name"] column. *)
Definition log_nofile : Pipe.DataFrame :=
  {| Pipe.index_names := [];
     Pipe.column_names := [];
     Pipe.columns := [L1 "pipe"; L1 "pos"];
     Pipe.rows := [([], [Key (PStr "P1"); Key (PInt 2)])] |}.

Definition pipe_nofile : Pipe.PipeObj := Pipe.__init__ log_nofile mapper 1 true 3.

(** The store and the pipe after [process] has run, in parallel and in
    sequential mode, and the table of the sequential run. *)
Definition heap3 : list Pipe.object :=
  Eval vm_compute in (Pipe.process pipe_parallel false [2; 0; 1] []).1.

Definition pipe_parallel_done : Pipe.PipeObj :=
  Eval vm_compute in
    match (Pipe.process pipe_parallel false [2; 0; 1] []).2 with
    | Ok st => st.1
    | Err _ => pipe_parallel
    end.

Definition heap3_sequential : list Pipe.object :=
  Eval vm_compute in (Pipe.process pipe_sequential false [] []).1.

Definition pipe_sequential_done : Pipe.PipeObj :=
  Eval vm_compute in
    match (Pipe.process pipe_sequential false [] []).2 with
    | Ok st => st.1
    | Err _ => pipe_sequential
    end.

Definition table3_sequential : Pipe.DataFrame :=
  Eval vm_compute in
    match (Pipe.process pipe_sequential false [] []).2 with
    | Ok st => st.2
    | Err _ => log3
    end.

(** A batch whose second file is too short for the filter and whose
    third file name is a number. *)
Definition log_bad : Pipe.DataFrame :=
  {| Pipe.index_names := [];
     Pipe.column_names := [];
     Pipe.columns := [L1 "pipe"; L1 "pos"; L1 "file_name"];
     Pipe.rows := [([], [Key (PStr "P1"); Key (PInt 1); Key (PStr "a.csv")]);
                   ([], [Key (PStr "P1"); Key (PInt 2); Key (PStr "short.csv")]);
                   ([], [Key (PStr "P1"); Key (PInt 3); Key (PInt 7)])] |}.

Definition pipe_bad_sequential : Pipe.PipeObj := Pipe.__init__ log_bad mapper 1 true 3.
Definition pipe_bad_parallel : Pipe.PipeObj := Pipe.__init__ log_bad mapper 2 true 3.

(** The record of the first file of that batch. *)
Definition records_bad : list (dict (cell_of pyscalar sfloat)) :=
  Eval vm_compute in
    match Pipe.unit_of_work pipe_bad_sequential
            ([], [Key (PStr "P1"); Key (PInt 1); Key (PStr "a.csv")]) with
    | Ok d => [d]
    | Err _ => []
    end.

(** What [Procesor.run] writes for the batch of three files. *)
Definition written3 : list label * list (list (cell_of pyscalar sfloat)) :=
  Eval vm_compute in
    match (Procesor.run log3 2 [2; 0; 1] []).2 with
    | Ok out => out
    | Err _ => ([], [])
    end.

End Sym.

(** * Properties *)

Module PipeFacts.
Import Pipe.

Section Monad.
Context `{Lib : Libraries}.

Lemma bind_ok {A B} (m : M A) (k : A → M B) h h' b :
  bind m k h = (h', Ok b) ↔ ∃ a h1, m h = (h1, Ok a) ∧ k a h1 = (h', Ok b).
Proof.
  unfold bind. destruct (m h) as [h1 [a|e]]; split.
  - eauto.
  - intros (a' & h1' & [= <- <-] & Hk). exact Hk.
  - discriminate.
  - intros (a' & h1' & [=] & _).
Qed.

Lemma bind_run {A B} (m : M A) (k : A → M B) h h1 a :
  m h = (h1, Ok a) → bind m k h = k a h1.
Proof. unfold bind. intros ->. reflexivity. Qed.

Lemma bind_fail {A B} (m : M A) (k : A → M B) h h1 e :
  m h = (h1, Err e) → bind m k h = (h1, Err e).
Proof. unfold bind. intros ->. reflexivity. Qed.

Lemma lift_ok {A} (r : res A) h h' a :
  lift r h = (h', Ok a) ↔ r = Ok a ∧ h' = h.
Proof. unfold lift. split; [intros [= <- <-] | intros [-> ->]]; done. Qed.

Lemma ret_ok {A} (x : A) h h' a : ret x h = (h', Ok a) ↔ a = x ∧ h' = h.
Proof. unfold ret. split; [intros [= <- <-] | intros [-> ->]]; done. Qed.

Lemma res_bind_ok {A B} (r : res A) (k : A → res B) b :
  res_bind r k = Ok b ↔ ∃ a, r = Ok a ∧ k a = Ok b.
Proof.
  destruct r as [a|e]; simpl; split; eauto.
  - intros (a' & [= <-] & Hk). exact Hk.
  - discriminate.
  - intros (a' & [=] & _).
Qed.

Lemma read_trace_ok l h h' t :
  read_trace l h = (h', Ok t) ↔ h !! l = Some (OTrace t) ∧ h' = h.
Proof.
  unfold read_trace. destruct (h !! l) as [[d|t']|]; split;
    try discriminate; try (intros [[=] _]; fail).
  - intros [= <- <-]. done.
  - intros [[= ->] ->]. done.
Qed.

Lemma read_dict_ok l h h' d :
  read_dict l h = (h', Ok d) ↔ h !! l = Some (ODict d) ∧ h' = h.
Proof.
  unfold read_dict. destruct (h !! l) as [[d'|t]|]; split;
    try discriminate; try (intros [[=] _]; fail).
  - intros [= <- <-]. done.
  - intros [[= ->] ->]. done.
Qed.

Lemma getcol_ok df col h h' x :
  getcol df col h = (h', Ok x)
  ↔ ∃ t, h !! df = Some (OTrace t) ∧ trace_get t col = Ok x ∧ h' = h.
Proof.
  unfold getcol. rewrite bind_ok. split.
  - intros (t & h1 & [Ht ->]%read_trace_ok & [Hx ->]%lift_ok). eauto.
  - intros (t & Ht & Hx & ->). exists t, h. rewrite read_trace_ok, lift_ok. done.
Qed.

Lemma getattr_ok df col h h' x :
  getattr df col h = (h', Ok x)
  ↔ ∃ t, h !! df = Some (OTrace t) ∧ attr t col = Ok x ∧ h' = h.
Proof.
  unfold getattr. rewrite bind_ok. split.
  - intros (t & h1 & [Ht ->]%read_trace_ok & [Hx ->]%lift_ok). eauto.
  - intros (t & Ht & Hx & ->). exists t, h. rewrite read_trace_ok, lift_ok. done.
Qed.

Lemma setcol_ok df col y h h' u :
  setcol df col y h = (h', Ok u)
  ↔ ∃ t t', h !! df = Some (OTrace t) ∧ trace_set t col y = Ok t'
            ∧ h' = <[df := OTrace t']> h.
Proof.
  unfold setcol. rewrite bind_ok. split.
  - intros (t & h1 & [Ht ->]%read_trace_ok & Hk).
    apply bind_ok in Hk as (t' & h2 & [Hs ->]%lift_ok & Hw).
    unfold write in Hw. injection Hw as <-. eauto.
  - intros (t & t' & Ht & Hs & ->). exists t, h. rewrite read_trace_ok.
    split; [done|]. apply bind_ok. exists t', h. rewrite lift_ok.
    destruct u. done.
Qed.

(** One turn of the loop of [filter]. *)
Lemma filter_turn df col h h' u :
  (let '(b, a) := butter 8 (float_lit (1 # 100)) in
   bind (getcol df col) (fun x =>
   bind (lift (filtfilt b a x 150)) (fun y => setcol df col y))) h = (h', Ok u)
  ↔ ∃ t t', h !! df = Some (OTrace t) ∧ filter_column t col = Ok t'
            ∧ h' = <[df := OTrace t']> h.
Proof.
  unfold filter_column. destruct (butter 8 (float_lit (1 # 100))) as [b a].
  rewrite bind_ok. split.
  - intros (x & h1 & (t & Ht & Hx & ->)%getcol_ok & Hk).
    apply bind_ok in Hk as (y & h2 & [Hy ->]%lift_ok & Hs).
    apply setcol_ok in Hs as (t0 & t' & Ht0 & Hs & ->).
    rewrite Ht in Ht0. injection Ht0 as <-.
    exists t, t'. rewrite Hx. simpl. rewrite Hy. simpl. done.
  - intros (t & t' & Ht & Hf & ->).
    apply res_bind_ok in Hf as (x & Hx & Hf).
    apply res_bind_ok in Hf as (y & Hy & Hs).
    exists x, h. split; [apply getcol_ok; eauto|].
    apply bind_ok. exists y, h. rewrite lift_ok. split; [done|].
    apply setcol_ok. eauto.
Qed.

(** [filter] succeeds exactly when the three columns can be filtered
    one after the other; it then hands back the reference it was given,
    and the table behind it holds the filtered columns. *)
Lemma filter_succeeds df h h' r :
  filter df h = (h', Ok r)
  ↔ ∃ t t', h !! df = Some (OTrace t) ∧ filtered t = Ok t'
            ∧ r = df ∧ h' = <[df := OTrace t']> h.
Proof.
  unfold filter, filter_cols, filtered. simpl for_each.
  rewrite bind_ok. split.
  - intros (u & h3 & Hloop & [-> ->]%ret_ok).
    apply bind_ok in Hloop as (u1 & h1 & (t & t1 & Ht & H1 & ->)%filter_turn & Hloop).
    apply bind_ok in Hloop as (u2 & h2 & (t1' & t2 & Ht1 & H2 & ->)%filter_turn & Hloop).
    apply bind_ok in Hloop as (u3 & h4 & (t2' & t3 & Ht2 & H3 & ->)%filter_turn & [_ ->]%ret_ok).
    assert (df < length h) by (eapply lookup_lt_Some; eauto).
    rewrite list_lookup_insert_eq in Ht1 by done. injection Ht1 as <-.
    rewrite list_lookup_insert_eq in Ht2 by (rewrite length_insert; done).
    injection Ht2 as <-.
    exists t, t3. rewrite H1. simpl. rewrite H2. simpl.
    rewrite !list_insert_insert_eq. done.
  - intros (t & t3 & Ht & Hf & -> & ->).
    apply res_bind_ok in Hf as (t1 & H1 & Hf).
    apply res_bind_ok in Hf as (t2 & H2 & H3).
    assert (df < length h) by (eapply lookup_lt_Some; eauto).
    exists tt, (<[df := OTrace t3]> h). split; [|apply ret_ok; done].
    apply bind_ok. exists tt, (<[df := OTrace t1]> h).
    split; [apply filter_turn; eauto|].
    apply bind_ok. exists tt, (<[df := OTrace t2]> h).
    split.
    { apply filter_turn. exists t1, t2. rewrite list_lookup_insert_eq by done.
      rewrite list_insert_insert_eq. done. }
    apply bind_ok. exists tt, (<[df := OTrace t3]> h).
    split; [|apply ret_ok; done].
    apply filter_turn. exists t2, t3. rewrite list_lookup_insert_eq by done.
    rewrite list_insert_insert_eq. done.
Qed.

End Monad.

(** ** Columns of a channel table *)

Section Traces.
Context `{Lib : Libraries}.

Lemma filter_key_map {V} (f : string * V → string * V) (c : string) l :
  (∀ kv, (f kv).1 = kv.1) →
  List.filter (fun kv => bool_decide (kv.1 = c)) (map f l)
  = map f (List.filter (fun kv => bool_decide (kv.1 = c)) l).
Proof.
  intros Hf. induction l as [|kv l IH]; simpl; [done|].
  rewrite Hf. destruct (bool_decide (kv.1 = c)); simpl; by rewrite IH.
Qed.

Lemma filter_key_map_other {V} (f : string * V → string * V) (c : string) l :
  (∀ kv, (f kv).1 = kv.1) → (∀ kv, kv.1 = c → f kv = kv) →
  List.filter (fun kv => bool_decide (kv.1 = c)) (map f l)
  = List.filter (fun kv => bool_decide (kv.1 = c)) l.
Proof.
  intros Hf Hc. induction l as [|kv l IH]; simpl; [done|].
  rewrite Hf. destruct (bool_decide_reflect (kv.1 = c)); simpl; [|done].
  by rewrite IH, Hc.
Qed.

Lemma trace_get_Ok_filter t col x :
  trace_get t col = Ok x
  ↔ ∃ k, List.filter (fun kv => bool_decide (kv.1 = col)) (channels t) = [(k, x)].
Proof.
  unfold trace_get.
  destruct (List.filter _ (channels t)) as [|[k v] [|kv l]]; split;
    try discriminate; try (intros [k' [=]]; fail).
  - intros [= <-]. eauto.
  - intros [k' [= _ ->]]. done.
Qed.

Lemma existsb_filter_nil {A} (p : A → bool) l :
  existsb p l = false ↔ List.filter p l = [].
Proof.
  induction l as [|a l IH]; simpl; [done|].
  destruct (p a); simpl; [split; discriminate | exact IH].
Qed.

Lemma trace_set_other t col y t' c :
  trace_set t col y = Ok t' → c ≠ col → trace_get t' c = trace_get t c.
Proof.
  unfold trace_set. destruct (Nat.eqb _ _); [|discriminate].
  intros [= <-] Hc. unfold trace_get. simpl.
  destruct (existsb _ (channels t)).
  - rewrite filter_key_map_other; [done| |].
    + intros kv. by destruct (decide (kv.1 = col)).
    + intros kv Hkv. destruct (decide (kv.1 = col)); [congruence|done].
  - rewrite List.filter_app. simpl.
    rewrite bool_decide_eq_false_2 by congruence. by rewrite app_nil_r.
Qed.

Lemma trace_set_same t col x y t' :
  trace_get t col = Ok x → trace_set t col y = Ok t' → trace_get t' col = Ok y.
Proof.
  intros [k Hk]%trace_get_Ok_filter. unfold trace_set.
  destruct (Nat.eqb _ _); [|discriminate]. intros [= <-].
  apply trace_get_Ok_filter. simpl.
  destruct (existsb _ (channels t)) eqn:He.
  - rewrite filter_key_map by (intros kv; by destruct (decide (kv.1 = col))).
    rewrite Hk. simpl. exists k.
    assert (Hin : In (k, x) (List.filter (fun kv => bool_decide (kv.1 = col)) (channels t)))
      by (rewrite Hk; by left).
    apply List.filter_In in Hin as [_ Hkc%bool_decide_eq_true]. simpl in Hkc.
    by destruct (decide (k = col)).
  - apply existsb_filter_nil in He. congruence.
Qed.

Lemma trace_set_names t col x y t' :
  trace_get t col = Ok x → trace_set t col y = Ok t' →
  map fst (channels t') = map fst (channels t) ∧ nsamples t' = nsamples t.
Proof.
  intros [k Hk]%trace_get_Ok_filter. unfold trace_set.
  destruct (Nat.eqb _ _); [|discriminate]. intros [= <-]. simpl. split; [|done].
  destruct (existsb _ (channels t)) eqn:He.
  - rewrite map_map. apply map_ext. intros kv. by destruct (decide (kv.1 = col)).
  - apply existsb_filter_nil in He. congruence.
Qed.

Lemma trace_set_Ok t col y :
  alen y = nsamples t → ∃ t', trace_set t col y = Ok t'.
Proof. intros Hy. unfold trace_set. rewrite Hy, Nat.eqb_refl. eauto. Qed.

Lemma trace_set_alen t col y t' :
  trace_set t col y = Ok t' → alen y = nsamples t.
Proof.
  unfold trace_set. destruct (Nat.eqb _ _) eqn:He; [|discriminate].
  intros _. by apply Nat.eqb_eq.
Qed.

(** What one filtered column does to the table. *)
Lemma filter_column_ok t col t' :
  filter_column t col = Ok t'
  ↔ ∃ x y, trace_get t col = Ok x
           ∧ filtfilt (butter 8 (float_lit (1 # 100))).1
                      (butter 8 (float_lit (1 # 100))).2 x 150 = Ok y
           ∧ trace_set t col y = Ok t'.
Proof.
  unfold filter_column. destruct (butter 8 (float_lit (1 # 100))) as [b a]. simpl.
  rewrite res_bind_ok. split.
  - intros (x & Hx & (y & Hy & Hs)%res_bind_ok). eauto.
  - intros (x & y & Hx & Hy & Hs). exists x. split; [done|].
    apply res_bind_ok. eauto.
Qed.

Lemma filtered_columns t t' :
  filtered t = Ok t' →
  ∃ x1 y1 x2 y2 x3 y3,
    (trace_get t "res_volt" = Ok x1 ∧ butter_filtfilt x1 = Ok y1
     ∧ trace_get t' "res_volt" = Ok y1)
    ∧ (trace_get t "sec_volt" = Ok x2 ∧ butter_filtfilt x2 = Ok y2
       ∧ trace_get t' "sec_volt" = Ok y2)
    ∧ (trace_get t "rec_volt" = Ok x3 ∧ butter_filtfilt x3 = Ok y3
       ∧ trace_get t' "rec_volt" = Ok y3)
    ∧ (∀ c, c ∉ filter_cols → trace_get t' c = trace_get t c)
    ∧ map fst (channels t') = map fst (channels t)
    ∧ nsamples t' = nsamples t.
Proof.
  unfold filtered. intros (t1 & H1 & (t2 & H2 & H3)%res_bind_ok)%res_bind_ok.
  apply filter_column_ok in H1 as (x1 & y1 & Hx1 & Hy1 & Hs1).
  apply filter_column_ok in H2 as (x2 & y2 & Hx2 & Hy2 & Hs2).
  apply filter_column_ok in H3 as (x3 & y3 & Hx3 & Hy3 & Hs3).
  pose proof (trace_set_other _ _ _ _ "sec_volt" Hs1 ltac:(done)) as E12.
  pose proof (trace_set_other _ _ _ _ "rec_volt" Hs1 ltac:(done)) as E13.
  pose proof (trace_set_other _ _ _ _ "rec_volt" Hs2 ltac:(done)) as E23.
  pose proof (trace_set_other _ _ _ _ "res_volt" Hs2 ltac:(done)) as E21.
  pose proof (trace_set_other _ _ _ _ "res_volt" Hs3 ltac:(done)) as E31.
  pose proof (trace_set_other _ _ _ _ "sec_volt" Hs3 ltac:(done)) as E32.
  pose proof (trace_set_same _ _ _ _ _ Hx1 Hs1) as S1.
  pose proof (trace_set_same _ _ _ _ _ Hx2 Hs2) as S2.
  pose proof (trace_set_same _ _ _ _ _ Hx3 Hs3) as S3.
  destruct (trace_set_names _ _ _ _ _ Hx1 Hs1) as [N1 M1].
  destruct (trace_set_names _ _ _ _ _ Hx2 Hs2) as [N2 M2].
  destruct (trace_set_names _ _ _ _ _ Hx3 Hs3) as [N3 M3].
  exists x1, y1, x2, y2, x3, y3. repeat split; try done; try congruence.
  intros c Hc. unfold filter_cols in Hc.
  rewrite (trace_set_other _ _ _ _ c Hs3), (trace_set_other _ _ _ _ c Hs2),
    (trace_set_other _ _ _ _ c Hs1); [done|..]; intros ->; apply Hc;
    repeat constructor.
Qed.

Lemma filtered_Ok t x1 y1 x2 y2 x3 y3 :
  trace_get t "res_volt" = Ok x1 → butter_filtfilt x1 = Ok y1 → alen y1 = nsamples t →
  trace_get t "sec_volt" = Ok x2 → butter_filtfilt x2 = Ok y2 → alen y2 = nsamples t →
  trace_get t "rec_volt" = Ok x3 → butter_filtfilt x3 = Ok y3 → alen y3 = nsamples t →
  ∃ t', filtered t = Ok t'.
Proof.
  intros Hx1 Hy1 L1 Hx2 Hy2 L2 Hx3 Hy3 L3.
  destruct (trace_set_Ok t "res_volt" y1 L1) as [t1 Hs1].
  destruct (trace_set_names _ _ _ _ _ Hx1 Hs1) as [_ M1].
  destruct (trace_set_Ok t1 "sec_volt" y2 ltac:(congruence)) as [t2 Hs2].
  assert (Hx2' : trace_get t1 "sec_volt" = Ok x2)
    by (rewrite (trace_set_other _ _ _ _ "sec_volt" Hs1); done).
  destruct (trace_set_names _ _ _ _ _ Hx2' Hs2) as [_ M2].
  destruct (trace_set_Ok t2 "rec_volt" y3 ltac:(congruence)) as [t3 Hs3].
  assert (Hx3' : trace_get t2 "rec_volt" = Ok x3).
  { rewrite (trace_set_other _ _ _ _ "rec_volt" Hs2),
      (trace_set_other _ _ _ _ "rec_volt" Hs1); done. }
  exists t3. unfold filtered.
  apply res_bind_ok. exists t1. split; [apply filter_column_ok; eauto|].
  apply res_bind_ok. exists t2. split; apply filter_column_ok; eauto.
Qed.

(** C4 (as amended).  The conditioning step works in place: when
    [Pipe.filter] returns, what it returns is the very table it was
    given, that table now holds the filtered traces in its three
    filtered columns, and no other object has been touched. *)
Theorem filter_in_place df h h' r :
  filter df h = (h', Ok r) →
  r = df
  ∧ length h' = length h
  ∧ (∀ l, l ≠ df → h' !! l = h !! l)
  ∧ ∃ t t', h !! df = Some (OTrace t) ∧ h' !! df = Some (OTrace t')
      ∧ ∀ col, col ∈ filter_cols →
          ∃ x y, trace_get t col = Ok x ∧ butter_filtfilt x = Ok y
                 ∧ trace_get t' col = Ok y.
Proof.
  intros (t & t' & Ht & Hf & -> & ->)%filter_succeeds.
  assert (df < length h) by (eapply lookup_lt_Some; eauto).
  split; [done|]. split; [apply length_insert|].
  split; [intros l Hl; by apply list_lookup_insert_ne|].
  exists t, t'. split; [done|]. split; [by apply list_lookup_insert_eq|].
  destruct (filtered_columns _ _ Hf)
    as (x1 & y1 & x2 & y2 & x3 & y3 & R1 & R2 & R3 & _).
  intros col Hcol. unfold filter_cols in Hcol.
  repeat (apply elem_of_cons in Hcol as [->|Hcol]; [eauto|]).
  by apply elem_of_nil in Hcol.
Qed.

(** C5 (as amended).  Filtering is applied to exactly three columns:
    ["res_volt"] (the drive channel, from which the primary current is
    fitted), ["sec_volt"] and ["rec_volt"].  Every other column of the
    table (the time base, the signal generator) is left as it was
    read. *)
Theorem filter_three_columns df h h' r :
  filter df h = (h', Ok r) →
  ∃ t t', h !! df = Some (OTrace t) ∧ h' !! df = Some (OTrace t')
    ∧ map fst (channels t') = map fst (channels t)
    ∧ ∀ col, trace_get t' col
             = if bool_decide (col ∈ ["res_volt"; "sec_volt"; "rec_volt"])
               then res_bind (trace_get t col) butter_filtfilt
               else trace_get t col.
Proof.
  intros (t & t' & Ht & Hf & -> & ->)%filter_succeeds.
  assert (df < length h) by (eapply lookup_lt_Some; eauto).
  exists t, t'. split; [done|]. split; [by apply list_lookup_insert_eq|].
  destruct (filtered_columns _ _ Hf)
    as (x1 & y1 & x2 & y2 & x3 & y3 & (X1 & Y1 & Z1) & (X2 & Y2 & Z2)
        & (X3 & Y3 & Z3) & Hother & Hnames & _).
  split; [done|]. intros col.
  destruct (bool_decide_reflect (col ∈ ["res_volt"; "sec_volt"; "rec_volt"]))
    as [Hcol|Hcol].
  - repeat (apply elem_of_cons in Hcol as [->|Hcol];
            [match goal with H : trace_get t _ = Ok _ |- _ => rewrite H end;
             simpl; congruence|]).
    by apply elem_of_nil in Hcol.
  - by apply Hother.
Qed.

(** C6.  Every filtered column is replaced by the output of [filtfilt]
    (forward and backward, [padlen=150]) with the coefficients of
    [butter(8, 0.01)]: order 8, low-pass, cut-off at 0.01 of the Nyquist
    frequency.  [filter] succeeds exactly when that filter accepts the
    three columns and returns arrays of the length of the table. *)
Theorem filter_parameters df h t :
  h !! df = Some (OTrace t) →
  ((∃ h', filter df h = (h', Ok df))
   ↔ ∀ col, col ∈ filter_cols →
       ∃ x y, trace_get t col = Ok x
              ∧ filtfilt (butter 8 (float_lit (1 # 100))).1
                         (butter 8 (float_lit (1 # 100))).2 x 150 = Ok y
              ∧ alen y = nsamples t)
  ∧ ∀ h' r, filter df h = (h', Ok r) →
      ∀ col, col ∈ filter_cols →
        ∃ x y t', trace_get t col = Ok x
                  ∧ filtfilt (butter 8 (float_lit (1 # 100))).1
                             (butter 8 (float_lit (1 # 100))).2 x 150 = Ok y
                  ∧ h' !! df = Some (OTrace t') ∧ trace_get t' col = Ok y.
Proof.
  intros Ht. split; [split|].
  - intros (h' & (t0 & t' & Ht0 & Hf & _ & ->)%filter_succeeds).
    rewrite Ht in Ht0. injection Ht0 as <-.
    unfold filtered in Hf.
    apply res_bind_ok in Hf as (t1 & H1 & (t2 & H2 & H3)%res_bind_ok).
    apply filter_column_ok in H1 as (x1 & y1 & Hx1 & Hy1 & Hs1).
    apply filter_column_ok in H2 as (x2 & y2 & Hx2 & Hy2 & Hs2).
    apply filter_column_ok in H3 as (x3 & y3 & Hx3 & Hy3 & Hs3).
    destruct (trace_set_names _ _ _ _ _ Hx1 Hs1) as [_ M1].
    destruct (trace_set_names _ _ _ _ _ Hx2 Hs2) as [_ M2].
    apply trace_set_alen in Hs1 as A1. apply trace_set_alen in Hs2 as A2.
    apply trace_set_alen in Hs3 as A3.
    rewrite (trace_set_other _ _ _ _ "sec_volt" Hs1) in Hx2 by done.
    rewrite (trace_set_other _ _ _ _ "rec_volt" Hs2),
      (trace_set_other _ _ _ _ "rec_volt" Hs1) in Hx3 by done.
    intros col Hcol. unfold filter_cols in Hcol.
    repeat (apply elem_of_cons in Hcol as [->|Hcol];
            [eexists _, _; repeat split; eauto; congruence|]).
    by apply elem_of_nil in Hcol.
  - intros Hall.
    destruct (Hall "res_volt") as (x1 & y1 & ? & ? & ?); [repeat constructor|].
    destruct (Hall "sec_volt") as (x2 & y2 & ? & ? & ?); [repeat constructor|].
    destruct (Hall "rec_volt") as (x3 & y3 & ? & ? & ?); [repeat constructor|].
    destruct (filtered_Ok t x1 y1 x2 y2 x3 y3) as [t' Hf]; try done.
    exists (<[df := OTrace t']> h). apply filter_succeeds. eauto 10.
  - intros h' r (t0 & t' & Ht0 & Hf & -> & ->)%filter_succeeds.
    rewrite Ht in Ht0. injection Ht0 as <-.
    assert (df < length h) by (eapply lookup_lt_Some; eauto).
    destruct (filtered_columns _ _ Hf)
      as (x1 & y1 & x2 & y2 & x3 & y3 & R1 & R2 & R3 & _).
    intros col Hcol. unfold filter_cols in Hcol.
    repeat (apply elem_of_cons in Hcol as [->|Hcol];
            [eexists _, _, t'; rewrite list_lookup_insert_eq by done;
             unfold butter_filtfilt in *; intuition eauto|]).
    by apply elem_of_nil in Hcol.
Qed.

End Traces.

(** ** One file *)

Section OneFile.
Context `{Lib : Libraries}.

Lemma alloc_ok o h h' l :
  alloc o h = (h', Ok l) ↔ l = length h ∧ h' = h ++ [o].
Proof. unfold alloc. split; [intros [= <- <-] | intros [-> ->]]; done. Qed.

Lemma insert_last (h : list object) o o' :
  <[length h := o']> (h ++ [o]) = h ++ [o'].
Proof.
  rewrite insert_app_r_alt by lia. by rewrite Nat.sub_diag.
Qed.

Lemma lookup_last (h : list object) o : (h ++ [o]) !! length h = Some o.
Proof. rewrite lookup_app_r by lia. by rewrite Nat.sub_diag. Qed.

Lemma lookup_dict_grown (h : list object) t kd d :
  (h ++ [OTrace t]) !! kd = Some (ODict d) ↔ h !! kd = Some (ODict d).
Proof.
  destruct (decide (kd < length h)) as [Hlt|Hge].
  - by rewrite lookup_app_l.
  - split.
    + intros Hk. assert (kd < length (h ++ [OTrace t])) as Hlen
        by (eapply lookup_lt_Some; eauto).
      rewrite length_app in Hlen. simpl in Hlen.
      assert (kd = length h) as -> by lia.
      rewrite lookup_last in Hk. discriminate.
    + intros Hk%lookup_lt_Some. lia.
Qed.

Ltac peel_attr H t' :=
  let E := fresh "E" in
  let T := fresh "T" in
  let t0 := fresh "t" in
  apply bind_ok in H as (? & ? & (t0 & T & E & ->)%getattr_ok & H);
  rewrite lookup_last in T; injection T as <-.

Ltac peel_lift H :=
  let E := fresh "E" in
  apply bind_ok in H as (? & ? & [E ->]%lift_ok & H).

(** [_process_file] succeeds exactly when the file can be read,
    filtered and summarised; it then hands back the dictionary it was
    given, with the derived fields written over it, and leaves one new
    object in the store: the table of the file, filtered. *)
Lemma _process_file_succeeds self file kd h h' out :
  _process_file self file kd h = (h', Ok out)
  ↔ ∃ tbl t' fields d,
      CSV file (float_lit (1000000000 # 1)) (channel_mapper self) = Ok tbl
      ∧ filtered {| nsamples := tbl.1; channels := tbl.2 |} = Ok t'
      ∧ summary self t' = Ok fields
      ∧ h !! kd = Some (ODict d)
      ∧ out = kd
      ∧ h' = <[kd := ODict (dict_update d fields)]> (h ++ [OTrace t']).
Proof.
  unfold _process_file. split.
  - intros H.
    apply bind_ok in H as (tbl & ? & [Hcsv ->]%lift_ok & H).
    apply bind_ok in H as (df & ? & [-> ->]%alloc_ok & H).
    apply bind_ok in H as (? & ? & (t0 & t' & T & Hf & -> & ->)%filter_succeeds & H).
    rewrite lookup_last in T. injection T as <-. rewrite insert_last in H.
    peel_attr H t'. peel_attr H t'. peel_lift H.
    peel_attr H t'. peel_attr H t'. peel_lift H.
    peel_attr H t'. peel_attr H t'. peel_lift H.
    do 11 peel_lift H.
    apply bind_ok in H as (d & ? & [Hd ->]%read_dict_ok & H).
    apply bind_ok in H as (? & ? & Hw & [-> ->]%ret_ok).
    unfold write in Hw. injection Hw as <-.
    apply lookup_dict_grown in Hd.
    eexists tbl, t', _, d. split; [done|]. split; [done|].
    split.
    { repeat match goal with
             | E : ?r = Ok _, E' : ?r = Ok _ |- _ =>
                 rewrite E in E'; injection E' as <-
             end.
      unfold summary, harm_db.
      repeat match goal with
             | E : ?r = Ok _ |- context [?r] => rewrite E; simpl
             end.
      reflexivity. }
    split; [done|]. split; reflexivity.
  - intros (tbl & t' & fields & d & Hcsv & Hf & Hs & Hd & -> & ->).
    unfold summary, harm_db in Hs.
    repeat match type of Hs with
           | res_bind _ _ = Ok _ =>
               let E := fresh "E" in
               apply res_bind_ok in Hs as (? & E & Hs)
           end.
    injection Hs as <-.
    repeat match goal with
           | E : res_bind _ _ = Ok _ |- _ =>
               let a := fresh "a" in
               let E' := fresh "E" in
               apply res_bind_ok in E as (a & E' & [= <-])
           | E : ?r = Ok _, E' : ?r = Ok _ |- _ =>
               rewrite E in E'; injection E' as <-
           end.
    assert (Hget : ∀ col x, attr t' col = Ok x →
              getattr (length h) col (h ++ [OTrace t']) = (h ++ [OTrace t'], Ok x)).
    { intros col arr Harr. apply getattr_ok. exists t'. by rewrite lookup_last. }
    rewrite (bind_run _ _ h h tbl) by (by apply lift_ok).
    rewrite (bind_run _ _ h _ (length h)) by (by apply alloc_ok).
    erewrite bind_run; cycle 1.
    { apply filter_succeeds. eexists _, t'. rewrite lookup_last, insert_last. done. }
    repeat first
      [ erewrite bind_run by (apply Hget; eassumption)
      | erewrite bind_run by (apply lift_ok; split; [eassumption|reflexivity]) ].
    erewrite bind_run by (apply read_dict_ok; split;
                          [apply lookup_dict_grown; eassumption|reflexivity]).
    reflexivity.
Qed.

(** *** Dictionaries *)

Lemma dict_get_set_eq {V} (d : dict V) k v : dict_get (dict_set d k v) k = Some v.
Proof.
  induction d as [|[k' v'] d IH]; simpl.
  - by rewrite decide_True.
  - destruct (decide (k' = k)) as [->|Hne]; simpl.
    + by rewrite decide_True.
    + by rewrite decide_False.
Qed.

Lemma dict_get_set_ne {V} (d : dict V) k v k' :
  k ≠ k' → dict_get (dict_set d k v) k' = dict_get d k'.
Proof.
  intros Hne. induction d as [|[k0 v0] d IH]; simpl.
  - by rewrite decide_False.
  - destruct (decide (k0 = k)) as [->|Hne0]; simpl.
    + by rewrite !decide_False.
    + destruct (decide (k0 = k')); [done|apply IH].
Qed.

Lemma dict_keys_set {V} (d : dict V) k v k' :
  k' ∈ dict_keys (dict_set d k v) ↔ k' = k ∨ k' ∈ dict_keys d.
Proof.
  unfold dict_keys. induction d as [|[k0 v0] d IH]; simpl.
  - rewrite list_elem_of_singleton, elem_of_nil. tauto.
  - destruct (decide (k0 = k)) as [->|Hne]; simpl; rewrite !elem_of_cons.
    + tauto.
    + rewrite IH. tauto.
Qed.

Lemma dict_keys_update {V} (d other : dict V) k :
  k ∈ dict_keys (dict_update d other) ↔ k ∈ dict_keys d ∨ k ∈ dict_keys other.
Proof.
  unfold dict_update. revert d. induction other as [|[k0 v0] other IH]; intros d; simpl.
  - change (dict_keys (@nil (label * V))) with (@nil label).
    rewrite elem_of_nil. tauto.
  - rewrite IH, dict_keys_set.
    change (dict_keys ((k0, v0) :: other)) with (k0 :: dict_keys other).
    rewrite elem_of_cons. tauto.
Qed.

Lemma dict_get_update_other {V} (d other : dict V) k :
  k ∉ dict_keys other → dict_get (dict_update d other) k = dict_get d k.
Proof.
  unfold dict_update. revert d. induction other as [|[k0 v0] other IH]; intros d Hk; simpl.
  - done.
  - unfold dict_keys in Hk. simpl in Hk. apply not_elem_of_cons in Hk as [Hne Hk].
    rewrite IH by done. by apply dict_get_set_ne.
Qed.

(** Everything a successful run of [_process_file] has done. *)
Lemma _process_file_detail self file kd h h' out :
  _process_file self file kd h = (h', Ok out) →
  ∃ tbl df t x_res x_sec x_rec h_i_prim h_v_sec h_v_rec
    h_z_prim_sec h_z_prim_rec h_z_sec_rec a_sec a_rec d d',
    CSV file (float_lit (1000000000 # 1)) (channel_mapper self) = Ok tbl
    ∧ filtered {| nsamples := tbl.1; channels := tbl.2 |} = Ok df
    ∧ (attr df "t" = Ok t ∧ attr df "res_volt" = Ok x_res
       ∧ attr df "sec_volt" = Ok x_sec ∧ attr df "rec_volt" = Ok x_rec)
    ∧ (fit (harmonics self) t x_res = Ok h_i_prim
       ∧ fit (harmonics self) t x_sec = Ok h_v_sec
       ∧ fit (harmonics self) t x_rec = Ok h_v_rec)
    ∧ (truediv h_v_sec (derivative h_i_prim) = Ok h_z_prim_sec
       ∧ truediv h_v_rec (derivative h_i_prim) = Ok h_z_prim_rec
       ∧ truediv h_v_rec h_v_sec = Ok h_z_sec_rec)
    ∧ (getitem (amplitudes h_v_sec) 1 = Ok a_sec
       ∧ getitem (amplitudes h_v_rec) 1 = Ok a_rec)
    ∧ (out = kd ∧ h !! kd = Some (ODict d) ∧ h' !! kd = Some (ODict d'))
    ∧ ((∀ k, k ∈ dict_keys d' ↔ k ∈ dict_keys d ∨ k ∈ derived_columns)
       ∧ (∀ k, k ∉ derived_columns → dict_get d' k = dict_get d k))
    ∧ (holds d' "prim_sec_amp" (getitem (amplitudes h_z_prim_sec) 0)
       ∧ holds d' "prim_sec_phi" (getitem (phases h_z_prim_sec) 0)
       ∧ holds d' "prim_rec_amp" (getitem (amplitudes h_z_prim_rec) 0)
       ∧ holds d' "prim_rec_phi" (getitem (phases h_z_prim_rec) 0)
       ∧ holds d' "sec_rec_amp" (getitem (amplitudes h_z_sec_rec) 0)
       ∧ holds d' "sec_rec_phi" (getitem (phases h_z_sec_rec) 0))
    ∧ dict_get d' (L1 "sec_harm_db")
      = Some (Num (fmul (float_lit 10)
                        (np_log10 (fdiv (fpow a_sec 2)
                                        (np_sum (apow (amplitudes h_v_sec) 2))))))
    ∧ dict_get d' (L1 "rec_harm_db")
      = Some (Num (fmul (float_lit 10)
                        (np_log10 (fdiv (fpow a_rec 2)
                                        (np_sum (apow (amplitudes h_v_rec) 2)))))).
Proof.
  intros Hrun.
  apply _process_file_succeeds in Hrun
    as (tbl & df & fields & d & Hcsv & Hf & Hs & Hd & -> & ->).
  unfold summary, harm_db in Hs.
  repeat match type of Hs with
         | res_bind _ _ = Ok _ =>
             let E := fresh "E" in
             apply res_bind_ok in Hs as (? & E & Hs)
         end.
  injection Hs as <-.
  repeat match goal with
         | E : res_bind _ _ = Ok _ |- _ =>
             let a := fresh "a" in
             let E' := fresh "E" in
             apply res_bind_ok in E as (a & E' & [= <-])
         | E : ?r = Ok _, E' : ?r = Ok _ |- _ =>
             rewrite E in E'; injection E' as <-
         end.
  assert (kd < length (h ++ [OTrace df])).
  { rewrite length_app. apply lookup_lt_Some in Hd. lia. }
  eexists tbl, df, _, _, _, _, _, _, _, _, _, _, _, _, d, _.
  split; [done|]. split; [done|].
  split; [repeat split; eassumption|].
  split; [repeat split; eassumption|].
  split; [repeat split; eassumption|].
  split; [repeat split; eassumption|].
  split; [split; [done|split; [done|by apply list_lookup_insert_eq]]|].
  split; [split|].
  - intros k. rewrite dict_keys_update. reflexivity.
  - intros k Hk. by apply dict_get_update_other.
  - unfold holds, dict_update, dict_of. simpl.
    repeat split;
      try (eexists; split; [eassumption|]);
      repeat (rewrite dict_get_set_ne by done); by rewrite dict_get_set_eq.
Qed.

(** C2.  Whenever [_process_file] returns, the file has been read,
    filtered and fitted three times on the harmonic set of the pipe;
    the ratios taken are secondary over the derivative of the drive
    fit, receiver over the derivative of the drive fit, and receiver
    over secondary; and the record returned is the dictionary of key
    fields it was given, whose keys are now the keys it had together
    with the eight derived fields: amplitude and phase of each ratio at
    the first harmonic of the set, and the two distortion figures. *)
Theorem process_file_record self file kd h h' out :
  _process_file self file kd h = (h', Ok out) →
  ∃ tbl df t x_res x_sec x_rec h_i_prim h_v_sec h_v_rec
    h_z_prim_sec h_z_prim_rec h_z_sec_rec d d',
    CSV file (float_lit (1000000000 # 1)) (channel_mapper self) = Ok tbl
    ∧ filtered {| nsamples := tbl.1; channels := tbl.2 |} = Ok df
    ∧ (attr df "t" = Ok t ∧ attr df "res_volt" = Ok x_res
       ∧ attr df "sec_volt" = Ok x_sec ∧ attr df "rec_volt" = Ok x_rec)
    ∧ (fit (harmonics self) t x_res = Ok h_i_prim
       ∧ fit (harmonics self) t x_sec = Ok h_v_sec
       ∧ fit (harmonics self) t x_rec = Ok h_v_rec)
    ∧ (truediv h_v_sec (derivative h_i_prim) = Ok h_z_prim_sec
       ∧ truediv h_v_rec (derivative h_i_prim) = Ok h_z_prim_rec
       ∧ truediv h_v_rec h_v_sec = Ok h_z_sec_rec)
    ∧ (out = kd ∧ h !! kd = Some (ODict d) ∧ h' !! kd = Some (ODict d'))
    ∧ (∀ k, k ∈ dict_keys d' ↔ k ∈ dict_keys d ∨ k ∈ derived_columns)
    ∧ (∀ k, k ∉ derived_columns → dict_get d' k = dict_get d k)
    ∧ (holds d' "prim_sec_amp" (getitem (amplitudes h_z_prim_sec) 0)
       ∧ holds d' "prim_sec_phi" (getitem (phases h_z_prim_sec) 0)
       ∧ holds d' "prim_rec_amp" (getitem (amplitudes h_z_prim_rec) 0)
       ∧ holds d' "prim_rec_phi" (getitem (phases h_z_prim_rec) 0)
       ∧ holds d' "sec_rec_amp" (getitem (amplitudes h_z_sec_rec) 0)
       ∧ holds d' "sec_rec_phi" (getitem (phases h_z_sec_rec) 0))
    ∧ (∃ sec_harm_db rec_harm_db,
         dict_get d' (L1 "sec_harm_db") = Some (Num sec_harm_db)
         ∧ dict_get d' (L1 "rec_harm_db") = Some (Num rec_harm_db)).
Proof.
  intros Hrun.
  destruct (_process_file_detail _ _ _ _ _ _ Hrun)
    as (tbl & df & t & x_res & x_sec & x_rec & h_i_prim & h_v_sec & h_v_rec
        & h_z_prim_sec & h_z_prim_rec & h_z_sec_rec & a_sec & a_rec & d & d'
        & Hcsv & Hf & Hattr & Hfit & Hdiv & _ & Hout & [Hkeys Hother] & Hratios
        & Hsec & Hrec).
  exists tbl, df, t, x_res, x_sec, x_rec, h_i_prim, h_v_sec, h_v_rec,
    h_z_prim_sec, h_z_prim_rec, h_z_sec_rec, d, d'.
  repeat (split; [assumption|]). eauto.
Qed.

(** C3.  The two distortion fields are ten times the decimal logarithm
    of the squared amplitude at the second entry of the harmonic set
    (the one harmonic beside the fundamental: [__init__] makes the set
    [[1, harmonic]]) over the sum of the squared amplitudes of the whole
    set, taken on the fit of the filtered secondary channel for
    [sec_harm_db] and on the fit of the filtered receiver channel for
    [rec_harm_db]: the channel fits themselves, not a ratio or a
    derivative. *)
Theorem harmonic_distortion_fields df_log_batch mapper jobs verbose harmonic
    file kd h h' out :
  let self := __init__ df_log_batch mapper jobs verbose harmonic in
  _process_file self file kd h = (h', Ok out) →
  ∃ tbl df t x_sec x_rec h_v_sec h_v_rec a_sec a_rec d',
    CSV file (float_lit (1000000000 # 1)) mapper = Ok tbl
    ∧ filtered {| nsamples := tbl.1; channels := tbl.2 |} = Ok df
    ∧ attr df "t" = Ok t
    ∧ attr df "sec_volt" = Ok x_sec
    ∧ attr df "rec_volt" = Ok x_rec
    ∧ fit [1%Z; harmonic] t x_sec = Ok h_v_sec
    ∧ fit [1%Z; harmonic] t x_rec = Ok h_v_rec
    ∧ getitem (amplitudes h_v_sec) 1 = Ok a_sec
    ∧ getitem (amplitudes h_v_rec) 1 = Ok a_rec
    ∧ h' !! out = Some (ODict d')
    ∧ dict_get d' (L1 "sec_harm_db")
      = Some (Num (fmul (float_lit 10)
                        (np_log10 (fdiv (fpow a_sec 2)
                                        (np_sum (apow (amplitudes h_v_sec) 2))))))
    ∧ dict_get d' (L1 "rec_harm_db")
      = Some (Num (fmul (float_lit 10)
                        (np_log10 (fdiv (fpow a_rec 2)
                                        (np_sum (apow (amplitudes h_v_rec) 2)))))).
Proof.
  intros self Hrun.
  destruct (_process_file_detail _ _ _ _ _ _ Hrun)
    as (tbl & df & t & x_res & x_sec & x_rec & h_i_prim & h_v_sec & h_v_rec
        & h_z_prim_sec & h_z_prim_rec & h_z_sec_rec & a_sec & a_rec & d & d'
        & Hcsv & Hf & (Ht & _ & Hxs & Hxr) & (_ & Hfs & Hfr) & _ & [Has Har]
        & (-> & _ & Hd') & _ & _ & Hsec & Hrec).
  exists tbl, df, t, x_sec, x_rec, h_v_sec, h_v_rec, a_sec, a_rec, d'.
  repeat (split; [assumption|]). assumption.
Qed.

(** A worker computes the functional reading [record]. *)
Lemma run_worker_record self file d rec :
  run_worker (_process_file self) file d = Ok rec ↔ record self file d = Ok rec.
Proof.
  unfold run_worker, record. split.
  - destruct (_process_file self file 0 [ODict d]) as [h' [out|e]] eqn:Hrun;
      [|discriminate].
    apply _process_file_succeeds in Hrun
      as (tbl & t' & fields & d0 & Hcsv & Hf & Hs & [= <-] & -> & ->).
    simpl. intros [= <-]. rewrite Hcsv. simpl. rewrite Hf. simpl.
    rewrite Hs. reflexivity.
  - intros (tbl & Hcsv & (t' & Hf & (fields & Hs & [= <-])%res_bind_ok)%res_bind_ok)%res_bind_ok.
    assert (Hrun : _process_file self file 0 [ODict d]
                   = (<[0 := ODict (dict_update d fields)]> ([ODict d] ++ [OTrace t']), Ok 0)).
    { apply _process_file_succeeds. eexists tbl, t', fields, d. done. }
    rewrite Hrun. reflexivity.
Qed.

End OneFile.

(** ** The batch *)

Section Batch.
Context `{Lib : Libraries}.

Lemma mapM_ok {A B} (f : A → M B) xs h h' ys :
  mapM f xs h = (h', Ok ys)
  ↔ match xs with
    | [] => ys = [] ∧ h' = h
    | x :: xs' => ∃ y h1 ys', f x h = (h1, Ok y) ∧ mapM f xs' h1 = (h', Ok ys')
                              ∧ ys = y :: ys'
    end.
Proof.
  destruct xs as [|x xs']; simpl.
  - apply ret_ok.
  - rewrite bind_ok. split.
    + intros (y & h1 & Hy & (ys' & h2 & Hys & [-> ->]%ret_ok)%bind_ok). eauto 10.
    + intros (y & h1 & ys' & Hy & Hys & ->). exists y, h1. split; [done|].
      apply bind_ok. exists ys', h'. split; [done|]. by apply ret_ok.
Qed.

Lemma mapM_read_dict (locs : list nat) h h' recs :
  mapM read_dict locs h = (h', Ok recs)
  ↔ Forall2 (fun l rec => h !! l = Some (ODict rec)) locs recs ∧ h' = h.
Proof.
  revert recs. induction locs as [|l locs IH]; intros recs; rewrite mapM_ok.
  - split.
    + intros [-> ->]. split; [constructor|done].
    + intros [Hf ->]. by inversion Hf.
  - split.
    + intros (d & h1 & recs' & [Hd ->]%read_dict_ok & [Hrest ->]%IH & ->).
      split; [by constructor|done].
    + intros [Hf ->]. inversion Hf as [|? d ? recs' Hd Hrest]; subst.
      exists d, h, recs'. rewrite read_dict_ok, IH. done.
Qed.

Lemma items_of_ok cols row ks h h' items :
  mapM (fun k => bind (lift (series_get cols row k)) (fun v => ret (k, v))) ks h
  = (h', Ok items)
  ↔ items_of cols row ks = Ok items ∧ h' = h.
Proof.
  revert items h h'. induction ks as [|k ks IH]; intros items h h'; rewrite mapM_ok; simpl.
  - split; [intros [-> ->]|intros [[= <-] ->]]; done.
  - split.
    + intros (y & h1 & ys' & Hy & [Hrest ->]%IH & ->).
      apply bind_ok in Hy as (v & h2 & [Hv ->]%lift_ok & [-> ->]%ret_ok).
      rewrite Hv. simpl. rewrite Hrest. done.
    + intros [Hi ->].
      apply res_bind_ok in Hi as (v & Hv & (rest & Hrest & [= <-])%res_bind_ok).
      exists (k, v), h, rest. split; [|split; [by apply IH|done]].
      apply bind_ok. exists v, h. rewrite lift_ok, ret_ok. done.
Qed.

Lemma unit_of_work_ok self r rec :
  unit_of_work self r = Ok rec
  ↔ ∃ file items,
      series_get (columns (df_log self)) r.2 (L1 "file_name") = Ok file
      ∧ items_of (columns (df_log self)) r.2
          (List.filter (fun c => negb (bool_decide (c = L1 "file_name")))
                       (columns (df_log self))) = Ok items
      ∧ record self file (dict_of items) = Ok rec.
Proof.
  unfold unit_of_work. rewrite res_bind_ok. split.
  - intros (file & Hfile & (items & Hitems & Hrun%run_worker_record)%res_bind_ok).
    eauto.
  - intros (file & items & Hfile & Hitems & Hrec). exists file. split; [done|].
    apply res_bind_ok. exists items. split; [done|]. by apply run_worker_record.
Qed.

(** One turn of the loop of [process]. *)
Lemma process_rows_cons (delay_func : cell → nat → M future) cols key_names
    r rws futs kdo h h' out :
  process_rows delay_func cols key_names (r :: rws) futs kdo h = (h', Ok out)
  ↔ ∃ file items fut h2,
      series_get cols r.2 (L1 "file_name") = Ok file
      ∧ items_of cols r.2 key_names = Ok items
      ∧ delay_func file (length h) (h ++ [ODict (dict_of items)]) = (h2, Ok fut)
      ∧ process_rows delay_func cols key_names rws (futs ++ [fut])
                     (Some (length h)) h2 = (h', Ok out).
Proof.
  destruct r as [idx row]. simpl. rewrite bind_ok. split.
  - intros (file & h1 & [Hfile ->]%lift_ok & H).
    apply bind_ok in H as (items & h2 & [Hitems ->]%items_of_ok & H).
    apply bind_ok in H as (kd & h3 & [-> ->]%alloc_ok & H).
    apply bind_ok in H as (fut & h4 & Hfut & H).
    exists file, items, fut, h4. done.
  - intros (file & items & fut & h2 & Hfile & Hitems & Hfut & Hrest).
    exists file, h. split; [by apply lift_ok|].
    apply bind_ok. exists items, h. split; [by apply items_of_ok|].
    apply bind_ok. exists (length h), (h ++ [ODict (dict_of items)]).
    split; [by apply alloc_ok|].
    apply bind_ok. exists fut, h2. done.
Qed.

(** *** Sequential mode *)

Lemma fake_delayed_ok self file kd h h' fut :
  fake_delayed (_process_file self) file kd h = (h', Ok fut) →
  ∃ d rec t', h !! kd = Some (ODict d) ∧ record self file d = Ok rec
              ∧ fut = Result kd ∧ h' = <[kd := ODict rec]> (h ++ [OTrace t']).
Proof.
  unfold fake_delayed. intros (r & h1 & Hrun & [-> ->]%ret_ok)%bind_ok.
  apply _process_file_succeeds in Hrun
    as (tbl & t' & fields & d & Hcsv & Hf & Hs & Hd & -> & ->).
  exists d, (dict_update d fields), t'. unfold record.
  rewrite Hcsv. simpl. rewrite Hf. simpl. rewrite Hs. done.
Qed.

Lemma fake_delayed_run self file kd h d rec :
  h !! kd = Some (ODict d) → record self file d = Ok rec →
  ∃ t', fake_delayed (_process_file self) file kd h
        = (<[kd := ODict rec]> (h ++ [OTrace t']), Ok (Result kd)).
Proof.
  intros Hd (tbl & Hcsv & (t' & Hf & (fields & Hs & [= <-])%res_bind_ok)%res_bind_ok)%res_bind_ok.
  exists t'. unfold fake_delayed.
  erewrite bind_run; [reflexivity|].
  apply _process_file_succeeds. eexists tbl, t', fields, d. done.
Qed.

(** The state after one sequential turn: the new dictionary sits at
    the old end of the store and nothing before it has changed. *)
Lemma sequential_turn_store (h : list object) d rec t' :
  let h2 := <[length h := ODict rec]> ((h ++ [ODict d]) ++ [OTrace t']) in
  h2 !! length h = Some (ODict rec)
  ∧ length h < length h2
  ∧ ∀ l, l < length h → h2 !! l = h !! l.
Proof.
  simpl. split; [|split].
  - apply list_lookup_insert_eq. rewrite !length_app. simpl. lia.
  - rewrite length_insert, !length_app. simpl. lia.
  - intros l Hl. rewrite list_lookup_insert_ne by lia.
    rewrite <- app_assoc. by rewrite lookup_app_l.
Qed.

Lemma last_or_cons kdo l locs : last_or (Some l) locs = last_or kdo (l :: locs).
Proof.
  unfold last_or. destruct locs as [|l' locs]; [done|]. rewrite last_cons_cons.
  destruct (last (l' :: locs)) eqn:E; [done|]. by apply last_None in E.
Qed.

Lemma rows_sequential self rws :
  let cols := columns (df_log self) in
  let key_names := List.filter (fun c => negb (bool_decide (c = L1 "file_name"))) cols in
  ∀ futs kdo h h' futs' kdo',
    process_rows (fake_delayed (_process_file self)) cols key_names rws futs kdo h
    = (h', Ok (futs', kdo')) →
    ∃ recs locs,
      Forall2 (fun r rec => unit_of_work self r = Ok rec) rws recs
      ∧ futs' = futs ++ map Result locs
      ∧ Forall2 (fun l rec => h' !! l = Some (ODict rec)) locs recs
      ∧ (∀ l, l < length h → h' !! l = h !! l)
      ∧ (length h ≤ length h')%nat
      ∧ kdo' = last_or kdo locs.
Proof.
  intros cols key_names. induction rws as [|r rws IH]; intros futs kdo h h' futs' kdo'.
  - simpl. intros [[= <- <-] ->]%ret_ok. exists [], []. simpl.
    rewrite app_nil_r. repeat split; try done; constructor.
  - intros (file & items & fut & h2 & Hfile & Hitems & Hfut & Hrest)%process_rows_cons.
    apply fake_delayed_ok in Hfut as (d & rec & t' & Hd & Hrec & -> & ->).
    rewrite lookup_last in Hd. injection Hd as <-.
    apply IH in Hrest as (recs & locs & Hunits & -> & Hlocs & Hframe & Hlen & ->).
    destruct (sequential_turn_store h (dict_of items) rec t') as (Hkd & Hlt & Hold).
    exists (rec :: recs), (length h :: locs). split; [|split; [|split; [|split; [|split]]]].
    + constructor; [|done]. apply unit_of_work_ok. eauto.
    + simpl. by rewrite <- app_assoc.
    + constructor; [|done]. rewrite Hframe by done. done.
    + intros l Hl. rewrite Hframe by lia. by apply Hold.
    + lia.
    + apply last_or_cons.
Qed.

Lemma rows_sequential_run self rws recs :
  let cols := columns (df_log self) in
  let key_names := List.filter (fun c => negb (bool_decide (c = L1 "file_name"))) cols in
  Forall2 (fun r rec => unit_of_work self r = Ok rec) rws recs →
  ∀ futs kdo h,
    ∃ h' locs,
      process_rows (fake_delayed (_process_file self)) cols key_names rws futs kdo h
      = (h', Ok (futs ++ map Result locs, last_or kdo locs))
      ∧ Forall2 (fun l rec => h' !! l = Some (ODict rec)) locs recs
      ∧ (∀ l, l < length h → h' !! l = h !! l)
      ∧ (length h ≤ length h')%nat.
Proof.
  intros cols key_names. induction 1 as [|r rec rws recs Hunit Hunits IH]; intros futs kdo h.
  - exists h, []. simpl. rewrite app_nil_r. repeat split; try done; constructor.
  - apply unit_of_work_ok in Hunit as (file & items & Hfile & Hitems & Hrec).
    destruct (fake_delayed_run self file (length h) (h ++ [ODict (dict_of items)])
                (dict_of items) rec) as [t' Hfut]; [apply lookup_last|done|].
    destruct (sequential_turn_store h (dict_of items) rec t') as (Hkd & Hlt & Hold).
    destruct (IH (futs ++ [Result (length h)]) (Some (length h))
                 (<[length h := ODict rec]> ((h ++ [ODict (dict_of items)]) ++ [OTrace t'])))
      as (h' & locs & Hrest & Hlocs & Hframe & Hlen).
    exists h', (length h :: locs). split; [|split; [|split]].
    + apply process_rows_cons. exists file, items, (Result (length h)). eexists.
      split; [done|]. split; [done|]. split; [exact Hfut|].
      rewrite Hrest. simpl. rewrite <- app_assoc. simpl. by rewrite last_or_cons with (kdo := kdo).
    + constructor; [|done]. rewrite Hframe by done. done.
    + intros l Hl. rewrite Hframe by lia. by apply Hold.
    + lia.
Qed.

Lemma fake_compute_results (locs : list nat) h :
  fake_compute (map Result locs) h = (h, Ok locs).
Proof.
  unfold fake_compute. induction locs as [|l locs IH]; [done|].
  apply mapM_ok. exists l, h, locs. done.
Qed.

(** *** Parallel mode *)

Lemma lookup_map {A B} (f : A → B) (l : list A) (i : nat) :
  map f l !! i = f <$> (l !! i).
Proof. exact (list_lookup_fmap f l i). Qed.

Lemma delayed_ok (f : cell → nat → M nat) file kd h h' fut :
  delayed f file kd h = (h', Ok fut)
  ↔ ∃ d, h !! kd = Some (ODict d) ∧ fut = Task f file d ∧ h' = h.
Proof.
  unfold delayed. rewrite bind_ok. split.
  - intros (d & h1 & [Hd ->]%read_dict_ok & [-> ->]%ret_ok). eauto.
  - intros (d & Hd & -> & ->). exists d, h. rewrite read_dict_ok, ret_ok. done.
Qed.

(** What the loop leaves in parallel mode: one task per row, holding
    the file and the key fields of the row, and the dictionaries of the
    key fields themselves at the end of the store. *)
Lemma rows_parallel (f : cell → nat → M nat) cols key_names rws :
  ∀ futs kdo h h' futs' kdo',
    process_rows (delayed f) cols key_names rws futs kdo h = (h', Ok (futs', kdo'))
    ↔ ∃ tasks : list (cell * dict cell),
        Forall2 (fun r t => series_get cols r.2 (L1 "file_name") = Ok t.1
                            ∧ ∃ items, items_of cols r.2 key_names = Ok items
                                       ∧ t.2 = dict_of items) rws tasks
        ∧ futs' = futs ++ map (fun t => Task f t.1 t.2) tasks
        ∧ h' = h ++ map (fun t => ODict t.2) tasks
        ∧ kdo' = last_or kdo (seq (length h) (length tasks)).
Proof.
  induction rws as [|r rws IH]; intros futs kdo h h' futs' kdo'.
  - simpl. rewrite ret_ok. split.
    + intros [[= -> ->] ->]. exists []. simpl. rewrite !app_nil_r.
      repeat split; try done; constructor.
    + intros (tasks & Hf & -> & -> & ->). inversion Hf; subst. simpl.
      by rewrite !app_nil_r.
  - rewrite process_rows_cons. split.
    + intros (file & items & fut & h2 & Hfile & Hitems & Hfut & Hrest).
      apply delayed_ok in Hfut as (d & Hd & -> & ->).
      rewrite lookup_last in Hd. injection Hd as <-.
      apply IH in Hrest as (tasks & Hf & -> & -> & ->).
      exists ((file, dict_of items) :: tasks). simpl.
      split; [constructor; [eauto|done]|].
      rewrite <- !app_assoc. simpl. split; [done|]. split; [done|].
      rewrite length_app. simpl. rewrite Nat.add_1_r. apply last_or_cons.
    + intros (tasks & Hf & -> & -> & ->).
      inversion Hf as [|? [file d] ? tasks' [Hfile (items & Hitems & Hd)] Hrest]; subst.
      simpl in *. subst d.
      exists file, items, (Task f file (dict_of items)), (h ++ [ODict (dict_of items)]).
      split; [done|]. split; [done|].
      split; [apply delayed_ok; exists (dict_of items); by rewrite lookup_last|].
      apply IH. exists tasks'. split; [done|].
      rewrite <- !app_assoc. simpl. split; [done|]. split; [done|].
      rewrite length_app. simpl. rewrite Nat.add_1_r. symmetry. apply last_or_cons.
Qed.

Lemma assoc_cons {A} (i j : nat) (a : A) l :
  assoc j ((i, a) :: l) = if decide (i = j) then Some a else assoc j l.
Proof. reflexivity. Qed.

(** Whatever order the tasks complete in, a result is only ever filed
    under the position of the task that produced it. *)
Lemma run_tasks_sound (f : cell → nat → M nat) (tasks : list (cell * dict cell))
    completion :
  ∀ fin fin',
    run_tasks completion (map (fun t => Task f t.1 t.2) tasks) fin = Ok fin' →
    (∀ i d, assoc i fin = Some d →
            ∃ t, tasks !! i = Some t ∧ run_worker f t.1 t.2 = Ok d) →
    ∀ i d, assoc i fin' = Some d →
           ∃ t, tasks !! i = Some t ∧ run_worker f t.1 t.2 = Ok d.
Proof.
  induction completion as [|j completion IH]; intros fin fin'; simpl.
  - intros [= <-]. done.
  - rewrite lookup_map. destruct (tasks !! j) as [t|] eqn:Ht; simpl; [|apply IH].
    destruct (run_worker f t.1 t.2) as [d|e] eqn:Hrun; [|discriminate].
    intros Hrest Hfin. eapply IH; [exact Hrest|].
    intros i d'. rewrite assoc_cons. destruct (decide (j = i)) as [<-|Hne].
    + intros [= <-]. eauto.
    + apply Hfin.
Qed.

(** When every task succeeds, every task that completes has its result
    filed. *)
Lemma run_tasks_complete (f : cell → nat → M nat) (tasks : list (cell * dict cell))
    recs :
  Forall2 (fun t rec => run_worker f t.1 t.2 = Ok rec) tasks recs →
  ∀ completion fin,
    ∃ fin', run_tasks completion (map (fun t => Task f t.1 t.2) tasks) fin = Ok fin'
            ∧ ∀ i, (i ∈ completion ∧ i < length tasks) ∨ is_Some (assoc i fin) →
                   is_Some (assoc i fin').
Proof.
  intros Hall. induction completion as [|j completion IH]; intros fin; simpl.
  - exists fin. split; [done|]. intros i [[Hi _]|Hi]; [by apply elem_of_nil in Hi|done].
  - rewrite lookup_map. destruct (tasks !! j) as [t|] eqn:Ht; simpl.
    + destruct (Forall2_lookup_l _ _ _ _ _ Hall Ht) as (rec & _ & Hrun).
      rewrite Hrun. destruct (IH ((j, rec) :: fin)) as (fin' & Hrest & Hfin').
      exists fin'. split; [done|]. intros i Hi. apply Hfin'.
      rewrite assoc_cons. destruct (decide (j = i)) as [<-|Hne]; [right; eauto|].
      destruct Hi as [[Hi Hlt]|Hi]; [|by right].
      apply elem_of_cons in Hi as [->|Hi]; [done|by left].
    + destruct (IH fin) as (fin' & Hrest & Hfin').
      exists fin'. split; [done|]. intros i Hi. apply Hfin'.
      destruct Hi as [[Hi Hlt]|Hi]; [|by right].
      apply elem_of_cons in Hi as [->|Hi]; [|by left].
      apply lookup_ge_None in Ht. lia.
Qed.

(** Collecting the results: one new dictionary per task, in the order
    of the tasks. *)
Lemma gather_ok (f : cell → nat → M nat) (fin : list (nat * dict cell))
    (tasks : list (cell * dict cell)) :
  ∀ k h h' locs,
    mapM (fun '(i, fut) =>
            match fut with
            | Result r => ret r
            | Task _ _ _ =>
                match assoc i fin with
                | Some d => alloc (ODict d)
                | None => raise (NotModelled "a task that never completes")
                end
            end)
         (zip (seq k (length tasks)) (map (fun t => Task f t.1 t.2) tasks)) h
    = (h', Ok locs)
    ↔ ∃ recs, Forall2 (fun i rec => assoc i fin = Some rec) (seq k (length tasks)) recs
              ∧ h' = h ++ map ODict recs
              ∧ locs = seq (length h) (length tasks).
Proof.
  induction tasks as [|t tasks IH]; intros k h h' locs; rewrite mapM_ok; simpl.
  - split.
    + intros [-> ->]. exists []. simpl. rewrite app_nil_r. repeat split. constructor.
    + intros (recs & Hf & -> & ->). inversion Hf; subst. simpl. by rewrite app_nil_r.
  - split.
    + intros (l & h1 & locs' & Hl & Hrest & ->).
      destruct (assoc k fin) as [d|] eqn:Hk; [|discriminate].
      apply alloc_ok in Hl as [-> ->].
      apply IH in Hrest as (recs & Hf & -> & ->).
      exists (d :: recs). split; [by constructor|].
      rewrite <- app_assoc, length_app. simpl. by rewrite Nat.add_1_r.
    + intros (recs & Hf & -> & ->).
      inversion Hf as [|? d ? recs' Hk Hrest]; subst. rewrite Hk.
      exists (length h), (h ++ [ODict d]), (seq (S (length h)) (length tasks)).
      split; [by apply alloc_ok|]. split; [|done].
      apply IH. exists recs'. rewrite <- app_assoc, length_app. simpl.
      by rewrite Nat.add_1_r.
Qed.

Lemma filed_results (f : cell → nat → M nat) (tasks : list (cell * dict cell))
    fin recs :
  (∀ i d, assoc i fin = Some d →
          ∃ t, tasks !! i = Some t ∧ run_worker f t.1 t.2 = Ok d) →
  Forall2 (fun i rec => assoc i fin = Some rec) (seq 0 (length tasks)) recs →
  Forall2 (fun t rec => run_worker f t.1 t.2 = Ok rec) tasks recs.
Proof.
  intros Hsound Hfiled. apply Forall2_same_length_lookup_2.
  - apply Forall2_length in Hfiled. by rewrite length_seq in Hfiled.
  - intros i t rec Ht Hrec.
    assert (Hi : seq 0 (length tasks) !! i = Some i).
    { apply lookup_seq. split; [done|]. by eapply lookup_lt_Some. }
    pose proof (Forall2_lookup_lr _ _ _ _ _ _ Hfiled Hi Hrec) as Hfin.
    destruct (Hsound _ _ Hfin) as (t' & Ht' & Hrun). congruence.
Qed.

(** [dask.compute] in the model: whatever the completion order, the
    result list follows the argument list. *)
Lemma compute_parallel (f : cell → nat → M nat) (tasks : list (cell * dict cell))
    completion h h' locs :
  compute completion (map (fun t => Task f t.1 t.2) tasks) h = (h', Ok locs) →
  ∃ recs, Forall2 (fun t rec => run_worker f t.1 t.2 = Ok rec) tasks recs
          ∧ h' = h ++ map ODict recs
          ∧ locs = seq (length h) (length tasks).
Proof.
  unfold compute. intros (fin & h1 & [Hrun ->]%lift_ok & Hgather)%bind_ok.
  rewrite length_map in Hgather.
  apply gather_ok in Hgather as (recs & Hfiled & -> & ->).
  exists recs. split; [|done].
  eapply filed_results; [|exact Hfiled].
  eapply run_tasks_sound; [exact Hrun|]. discriminate.
Qed.

Lemma compute_parallel_run (f : cell → nat → M nat) (tasks : list (cell * dict cell))
    recs completion h :
  Forall2 (fun t rec => run_worker f t.1 t.2 = Ok rec) tasks recs →
  (∀ i, i < length tasks → i ∈ completion) →
  compute completion (map (fun t => Task f t.1 t.2) tasks) h
  = (h ++ map ODict recs, Ok (seq (length h) (length tasks))).
Proof.
  intros Hall Hcover.
  destruct (run_tasks_complete f tasks recs Hall completion []) as (fin & Hrun & Hfin).
  assert (Hsound : ∀ i d, assoc i fin = Some d →
            ∃ t, tasks !! i = Some t ∧ run_worker f t.1 t.2 = Ok d).
  { eapply run_tasks_sound; [exact Hrun|]. discriminate. }
  unfold compute. erewrite bind_run by (apply lift_ok; split; [exact Hrun|reflexivity]).
  rewrite length_map. apply gather_ok. exists recs. split; [|done].
  apply Forall2_same_length_lookup_2.
  - rewrite length_seq. by apply Forall2_length in Hall.
  - intros i j rec [-> Hi]%lookup_seq Hrec. simpl.
    destruct (Hfin i) as [d Hd]; [left; auto|].
    destruct (Hsound _ _ Hd) as (t & Ht & Hrun').
    pose proof (Forall2_lookup_lr _ _ _ _ _ _ Hall Ht Hrec) as Hrun''. simpl in Hrun''.
    congruence.
Qed.

Lemma lookup_appended (h : list object) (recs : list (dict cell)) :
  Forall2 (fun l rec => (h ++ map ODict recs) !! l = Some (ODict rec))
          (seq (length h) (length recs)) recs.
Proof.
  apply Forall2_same_length_lookup_2; [by rewrite length_seq|].
  intros i l rec [-> Hi]%lookup_seq Hrec.
  rewrite lookup_app_r by lia.
  replace (length h + i - length h) with i by lia.
  by rewrite lookup_map, Hrec.
Qed.

Lemma lookup_dict_unique (h : list object) (locs : list nat) recs recs' :
  Forall2 (fun l rec => h !! l = Some (ODict rec)) locs recs →
  Forall2 (fun l rec => h !! l = Some (ODict rec)) locs recs' →
  recs = recs'.
Proof.
  intros H1 H2. eapply Forall2_unique; [exact H1|exact H2|].
  simpl. intros l d1 d2 E1 E2. congruence.
Qed.

Lemma last_seq k n : last (seq k (S n)) = Some (k + n).
Proof. rewrite seq_S. apply last_snoc. Qed.

(** The tasks of a batch whose units of work all succeed. *)
Lemma units_tasks self rws recs :
  let cols := columns (df_log self) in
  let key_names := List.filter (fun c => negb (bool_decide (c = L1 "file_name"))) cols in
  Forall2 (fun r rec => unit_of_work self r = Ok rec) rws recs
  ↔ ∃ tasks : list (cell * dict cell),
      Forall2 (fun r t => series_get cols r.2 (L1 "file_name") = Ok t.1
                          ∧ ∃ items, items_of cols r.2 key_names = Ok items
                                     ∧ t.2 = dict_of items) rws tasks
      ∧ Forall2 (fun t rec => run_worker (_process_file self) t.1 t.2 = Ok rec)
                tasks recs.
Proof.
  intros cols key_names. split.
  - induction 1 as [|r rec rws recs Hunit Hunits (tasks & Hrows & Hruns)].
    + exists []. split; constructor.
    + apply unit_of_work_ok in Hunit as (file & items & Hfile & Hitems & Hrec).
      exists ((file, dict_of items) :: tasks). split; constructor; simpl; eauto.
      by apply run_worker_record.
  - intros (tasks & Hrows & Hruns). revert recs Hruns.
    induction Hrows as [|r [file d] rws tasks [Hfile (items & Hitems & Hd)] Hrows IH];
      intros recs Hruns; inversion Hruns as [|? rec ? recs' Hrun Hruns']; subst;
      constructor; [|by apply IH].
    simpl in *. subst d. apply unit_of_work_ok. exists file, items.
    split; [done|]. split; [done|]. by apply run_worker_record.
Qed.

(** Reading [key_dict] after the loop. *)
Lemma key_dict_ok (kdo : option nat) h h' keys :
  match kdo with
  | Some l => bind (read_dict l) (fun d => ret (dict_keys d))
  | None => raise (UnboundLocalError "key_dict")
  end h = (h', Ok keys)
  ↔ ∃ l d, kdo = Some l ∧ h !! l = Some (ODict d) ∧ keys = dict_keys d ∧ h' = h.
Proof.
  destruct kdo as [l|]; split.
  - intros (d & h1 & [Hd ->]%read_dict_ok & [-> ->]%ret_ok)%bind_ok. eauto 10.
  - intros (l' & d & [= <-] & Hd & -> & ->). apply bind_ok. exists d, h.
    rewrite read_dict_ok, ret_ok. done.
  - discriminate.
  - intros (l' & d & [=] & _).
Qed.

Lemma last_or_lookup (h : list object) (locs : list nat) recs :
  locs ≠ [] →
  Forall2 (fun l rec => h !! l = Some (ODict rec)) locs recs →
  ∃ l d, last_or None locs = Some l ∧ h !! l = Some (ODict d).
Proof.
  intros Hne Hall. unfold last_or. destruct (last locs) as [l|] eqn:Hlast.
  - apply last_Some_elem_of in Hlast. apply list_elem_of_lookup in Hlast as [i Hi].
    destruct (Forall2_lookup_l _ _ _ _ _ Hall Hi) as (d & _ & Hd). eauto.
  - by apply last_None in Hlast.
Qed.

Lemma last_task_lookup (h : list object) (tasks : list (cell * dict cell)) :
  tasks ≠ [] →
  ∃ l d, last_or None (seq (length h) (length tasks)) = Some l
         ∧ (h ++ map (fun t => ODict t.2) tasks) !! l = Some (ODict d).
Proof.
  intros Hne. apply (last_or_lookup _ _ (map snd tasks)).
  - destruct tasks; [done|]. simpl. discriminate.
  - pose proof (lookup_appended h (map snd tasks)) as Hall.
    by rewrite map_map, length_map in Hall.
Qed.

(** A table is only returned when every unit of work has succeeded,
    and its rows are then the records of the rows of the descriptor, in
    the order of the descriptor. *)
Lemma process_returns self indexed completion h h' self' tbl :
  process self indexed completion h = (h', Ok (self', tbl)) →
  ∃ recs,
    Forall2 (fun r rec => unit_of_work self r = Ok rec) (rows (df_log self)) recs
    ∧ rows tbl = map (table_row (columns tbl)) recs.
Proof.
  unfold process. destruct (1 <? n_jobs self)%Z; cbv zeta;
    intros ([futs kdo] & h1 & Hloop & Hrun)%bind_ok.
  - apply rows_parallel in Hloop as (tasks & Hrows & -> & -> & ->). simpl in Hrun.
    apply bind_ok in Hrun as (locs & h2 & (recs & Hruns & -> & ->)%compute_parallel & Hrun).
    apply bind_ok in Hrun as (keys & h3 & (l & d & _ & _ & _ & ->)%key_dict_ok & Hrun).
    apply bind_ok in Hrun
      as (recs' & h4 & [Hread ->]%mapM_read_dict & [[= -> ->] ->]%ret_ok).
    rewrite (Forall2_length _ _ _ Hruns) in Hread.
    pose proof (lookup_dict_unique _ _ _ _ Hread (lookup_appended _ recs)) as ->.
    exists recs. split; [|reflexivity]. apply units_tasks. eauto.
  - apply rows_sequential in Hloop
      as (recs & locs & Hunits & -> & Hlocs & _ & _ & ->). simpl in Hrun.
    rewrite (bind_run _ _ h1 h1 locs) in Hrun by apply fake_compute_results.
    apply bind_ok in Hrun as (keys & h3 & (l & d & _ & _ & _ & ->)%key_dict_ok & Hrun).
    apply bind_ok in Hrun
      as (recs' & h4 & [Hread ->]%mapM_read_dict & [[= -> ->] ->]%ret_ok).
    pose proof (lookup_dict_unique _ _ _ _ Hread Hlocs) as ->.
    exists recs. split; [done|reflexivity].
Qed.

(** When every unit of work succeeds (and, in parallel mode, every
    task completes), a table is returned. *)
Lemma process_runs self indexed completion h recs :
  rows (df_log self) ≠ [] →
  Forall2 (fun r rec => unit_of_work self r = Ok rec) (rows (df_log self)) recs →
  ((1 < n_jobs self)%Z → ∀ i, i < length (rows (df_log self)) → i ∈ completion) →
  ∃ h' self' tbl, process self indexed completion h = (h', Ok (self', tbl)).
Proof.
  intros Hne Hunits Hcover. unfold process.
  destruct (1 <? n_jobs self)%Z eqn:Hjobs; cbv zeta.
  - apply Z.ltb_lt in Hjobs. specialize (Hcover Hjobs).
    apply units_tasks in Hunits as (tasks & Hrows & Hruns).
    rewrite (Forall2_length _ _ _ Hrows) in Hcover.
    assert (Htasks : tasks ≠ []).
    { intros ->. inversion Hrows as [E|]. by rewrite <- E in Hne. }
    erewrite bind_run; cycle 1.
    { apply rows_parallel. exists tasks. split; [exact Hrows|]. done. }
    cbv beta iota. rewrite app_nil_l.
    erewrite bind_run by (by apply compute_parallel_run).
    destruct (last_task_lookup h tasks Htasks) as (l & d & Hlast & Hd).
    erewrite bind_run; cycle 1.
    { apply key_dict_ok. exists l, d. split; [exact Hlast|]. split; [|done].
      rewrite lookup_app_l by (by eapply lookup_lt_Some). exact Hd. }
    erewrite bind_run; cycle 1.
    { apply mapM_read_dict. split; [|reflexivity].
      rewrite (Forall2_length _ _ _ Hruns). apply lookup_appended. }
    unfold ret. eauto.
  - destruct (rows_sequential_run self _ _ Hunits [] None h)
      as (h1 & locs & Hloop & Hlocs & _ & _).
    assert (Hlocs_ne : locs ≠ []).
    { intros ->. inversion Hlocs as [E|]; subst. inversion Hunits as [E'|]. by rewrite <- E' in Hne. }
    destruct (last_or_lookup _ _ _ Hlocs_ne Hlocs) as (l & d & Hlast & Hd).
    erewrite bind_run by exact Hloop. cbv beta iota. rewrite app_nil_l.
    erewrite bind_run by apply fake_compute_results.
    erewrite bind_run by (apply key_dict_ok; eauto 10).
    erewrite bind_run by (apply mapM_read_dict; split; [exact Hlocs|reflexivity]).
    unfold ret. eauto.
Qed.

(** C1.  In both execution modes, and whatever the order in which the
    units of work complete, the table [Pipe.process] returns has one row
    per row of the batch descriptor, in the order of the descriptor: row
    [i] is made from the record of descriptor row [i].  A table is
    returned whenever the descriptor has a row and every unit of work
    succeeds. *)
Theorem process_row_order self indexed completion h :
  (∀ h' self' tbl,
     process self indexed completion h = (h', Ok (self', tbl)) →
     length (rows tbl) = length (rows (df_log self))
     ∧ ∃ recs,
         Forall2 (fun r rec => unit_of_work self r = Ok rec) (rows (df_log self)) recs
         ∧ rows tbl = map (table_row (columns tbl)) recs)
  ∧ (∀ recs,
       rows (df_log self) ≠ [] →
       Forall2 (fun r rec => unit_of_work self r = Ok rec) (rows (df_log self)) recs →
       ((1 < n_jobs self)%Z →
        ∀ i, i < length (rows (df_log self)) → i ∈ completion) →
       ∃ h' self' tbl, process self indexed completion h = (h', Ok (self', tbl))).
Proof.
  split.
  - intros h' self' tbl (recs & Hunits & Hrows)%process_returns.
    split; [|eauto]. rewrite Hrows, length_map. symmetry. by eapply Forall2_length.
  - intros recs. apply process_runs.
Qed.

Lemma run_tasks_nothing completion fin : run_tasks completion [] fin = Ok fin.
Proof. induction completion as [|i completion IH]; [done|exact IH]. Qed.

Lemma compute_nothing completion h : compute completion [] h = (h, Ok []).
Proof.
  unfold compute.
  rewrite (bind_run _ _ h h []) by (apply lift_ok; by rewrite run_tasks_nothing).
  reflexivity.
Qed.

(** C10.  On a batch descriptor without rows [Pipe.process] returns no
    table: [key_dict] is only assigned in the loop over the rows, and
    reading it for the column list fails with an unbound-variable
    error.  Nothing has been put in the store by then. *)
Theorem process_empty_batch self indexed completion h :
  rows (df_log self) = [] →
  process self indexed completion h = (h, Err (UnboundLocalError "key_dict")).
Proof.
  intros Hrows. unfold process. rewrite Hrows.
  destruct (1 <? n_jobs self)%Z; cbv zeta; [|reflexivity].
  rewrite (bind_run _ _ h h ([], None)) by reflexivity. cbv beta iota.
  rewrite (bind_run _ _ h h []) by apply compute_nothing.
  reflexivity.
Qed.

End Batch.

(** ** Sorting *)

Section Sorting.
Context {A : Type} (le : A → A → bool).

Lemma insert_sorted_length x l : length (insert_sorted le x l) = S (length l).
Proof.
  induction l as [|y l IH]; simpl; [done|].
  destruct (le x y); simpl; by rewrite ?IH.
Qed.

Lemma stable_sort_length l : length (stable_sort le l) = length l.
Proof.
  induction l as [|x l IH]; simpl; [done|]. by rewrite insert_sorted_length, IH.
Qed.

Lemma insert_sorted_perm x l : Permutation (insert_sorted le x l) (x :: l).
Proof.
  induction l as [|y l IH]; simpl; [done|].
  destruct (le x y); [done|]. rewrite IH. apply perm_swap.
Qed.

Lemma stable_sort_perm l : Permutation (stable_sort le l) l.
Proof.
  induction l as [|x l IH]; simpl; [done|]. by rewrite insert_sorted_perm, IH.
Qed.

Lemma stable_sort_Forall (P : A → Prop) l : Forall P l → Forall P (stable_sort le l).
Proof. intros H. by rewrite stable_sort_perm. Qed.

(** A list whose neighbours are in order is left as it is. *)
Lemma sorted_fixed l : sorted le l = true → stable_sort le l = l.
Proof.
  induction l as [|x l IH]; simpl; [done|].
  destruct l as [|y l]; [done|].
  intros [Hxy Hl]%andb_true_iff. rewrite IH by done. simpl. by rewrite Hxy.
Qed.

Hypothesis le_total : ∀ a b, le a b = true ∨ le b a = true.

Lemma insert_sorted_sorted x l :
  sorted le l = true → sorted le (insert_sorted le x l) = true.
Proof.
  induction l as [|y l IH]; simpl; [done|].
  intros Hl. destruct (le x y) eqn:Hxy.
  - simpl. by rewrite Hxy.
  - assert (Hyx : le y x = true) by (destruct (le_total x y); congruence).
    destruct l as [|z l]; simpl.
    + by rewrite Hyx.
    + apply andb_true_iff in Hl as [Hyz Hl]. specialize (IH Hl). simpl in IH.
      destruct (le x z); simpl in *; rewrite ?Hyx, ?Hyz; simpl; done.
Qed.

Lemma stable_sort_sorted l : sorted le (stable_sort le l) = true.
Proof.
  induction l as [|x l IH]; simpl; [done|]. by apply insert_sorted_sorted.
Qed.

Lemma stable_sort_idem l : stable_sort le (stable_sort le l) = stable_sort le l.
Proof. apply sorted_fixed, stable_sort_sorted. Qed.

End Sorting.

Lemma stable_sort_map {A B} (le : A → A → bool) (le' : B → B → bool)
    (g : A → B) l :
  (∀ x y, le' (g x) (g y) = le x y) →
  stable_sort le' (map g l) = map g (stable_sort le l).
Proof.
  intros Hg. induction l as [|x l IH]; simpl; [done|]. rewrite IH.
  generalize (stable_sort le l). intros s.
  induction s as [|y s IHs]; simpl; [done|].
  rewrite Hg. destruct (le x y); simpl; by rewrite ?IHs.
Qed.

Lemma sorted_zip {A B} (le : A → A → bool) (l : list A) (vals : list B) :
  sorted le l = true → sorted (fun a b => le a.1 b.1) (zip l vals) = true.
Proof.
  revert vals. induction l as [|x l IH]; intros vals; simpl; [done|].
  destruct vals as [|v vals]; [done|]. simpl.
  destruct l as [|y l]; [done|]. intros [Hxy Hl]%andb_true_iff.
  destruct vals as [|w vals]; [done|]. specialize (IH (w :: vals) Hl).
  simpl in *. by rewrite Hxy, IH.
Qed.

Lemma snd_zip_short {A B} (l : list A) (vals : list B) :
  (length vals ≤ length l)%nat → map snd (zip l vals) = vals.
Proof.
  revert vals. induction l as [|x l IH]; intros [|v vals]; simpl; try done; try lia.
  intros Hlen. rewrite IH by lia. done.
Qed.

(** ** The reshape *)

Section Reshape.
Context `{Lib : Libraries}.

Lemma key_le_total :
  (∀ a b, index_le a b = true ∨ index_le b a = true) →
  ∀ a b, key_le a b = true ∨ key_le b a = true.
Proof.
  intros Htotal. induction a as [|x a IH]; intros [|y b]; simpl; auto.
  destruct (index_le x y) eqn:Hxy, (index_le y x) eqn:Hyx; auto.
  destruct (Htotal x y); congruence.
Qed.

Lemma indexify_shape df t :
  _indexify df = Ok t
  ↔ ∃ df1, set_index ["pipe"; "pos"] df = Ok df1
           ∧ length (columns df1) = 8
           ∧ t = {| index_names := index_names df1;
                    column_names := ["driver"; "detector"; "quantity"];
                    columns := sorted_labels;
                    rows := reshaped_rows (rows df1) |}.
Proof.
  unfold _indexify. rewrite res_bind_ok.
  change (from_arrays arrays) with (Ok (A := list label) code_labels).
  cbn [res_bind]. unfold set_columns.
  change (length code_labels) with 8.
  split.
  - intros (df1 & Hset & Hrest). exists df1. split; [done|].
    destruct (Nat.eqb 8 (length (columns df1))) eqn:Hlen; [|discriminate].
    apply Nat.eqb_eq in Hlen. split; [done|].
    cbn [res_bind] in Hrest. injection Hrest as <-. reflexivity.
  - intros (df1 & Hset & Hlen & ->). exists df1. split; [done|].
    rewrite <- Hlen, Nat.eqb_refl. reflexivity.
Qed.

Lemma filter_nonempty_existsb {A} (p : A → bool) l x :
  List.filter p l = [x] → existsb p l = true.
Proof.
  intros Hf. destruct (existsb p l) eqn:He; [done|].
  apply existsb_filter_nil in He. congruence.
Qed.

Lemma set_index_ok df :
  List.filter (selects (L1 "pipe")) (columns df) = [L1 "pipe"] →
  List.filter (selects (L1 "pos")) (columns df) = [L1 "pos"] →
  set_index ["pipe"; "pos"] df
  = Ok {| index_names := ["pipe"; "pos"];
          column_names := column_names df;
          columns := List.filter
                       (fun c => negb (bool_decide (c ∈ [L1 "pipe"; L1 "pos"])))
                       (columns df);
          rows := map (fun r =>
                         (key_of df r,
                          map snd (List.filter
                                     (fun cv => negb (bool_decide
                                                        (cv.1 ∈ [L1 "pipe"; L1 "pos"])))
                                     (zip (columns df) r.2))))
                      (rows df) |}.
Proof.
  intros Hpipe Hpos. unfold set_index. cbn [List.filter].
  rewrite (filter_nonempty_existsb _ _ _ Hpipe), (filter_nonempty_existsb _ _ _ Hpos).
  cbn [negb forallb]. rewrite Hpipe, Hpos.
  rewrite !bool_decide_eq_true_2 by done. cbn [andb]. do 2 f_equal.
  apply map_ext. intros r. unfold key_of, under. cbn [flat_map].
  by rewrite app_nil_r.
Qed.

(** C7 (as amended).  The reshape does not look at whether the keys are
    unique.  Every flat table in which ["pipe"] and ["pos"] each name
    one column and which has eight columns beside them is reshaped into
    a table indexed by (pipe, pos) that keeps every row of the flat
    table, rows that share their key included.  [_indexify] is a
    function of the flat table and writes nothing into it. *)
Theorem indexify_keeps_duplicates df :
  List.filter (selects (L1 "pipe")) (columns df) = [L1 "pipe"] →
  List.filter (selects (L1 "pos")) (columns df) = [L1 "pos"] →
  length (List.filter (fun c => negb (bool_decide (c ∈ [L1 "pipe"; L1 "pos"])))
                      (columns df)) = 8 →
  ∃ t, _indexify df = Ok t
       ∧ index_names t = ["pipe"; "pos"]
       ∧ length (rows t) = length (rows df)
       ∧ Permutation (map fst (rows t)) (map (key_of df) (rows df)).
Proof.
  intros Hpipe Hpos Hlen. eexists. split; [|split; [|split]].
  - apply indexify_shape. eexists. split; [by apply set_index_ok|].
    split; [exact Hlen|reflexivity].
  - reflexivity.
  - cbn [rows]. unfold reshaped_rows. by rewrite stable_sort_length, !length_map.
  - cbn [rows]. unfold reshaped_rows. rewrite stable_sort_perm, !map_map. reflexivity.
Qed.

Lemma reshaped_row_short (rws : list (list cell * list cell)) :
  Forall (fun r => (length r.2 ≤ 8)%nat) (reshaped_rows rws).
Proof.
  unfold reshaped_rows. apply stable_sort_Forall, Forall_forall.
  intros r' Hr'. apply list_elem_of_In, in_map_iff in Hr' as (r & <- & _). cbn [snd].
  rewrite length_map, stable_sort_length, length_zip.
  change (length code_labels) with 8. lia.
Qed.

(** C8 (as amended).  The reshape cannot be applied to its own result:
    in a reshaped table ["pipe"] and ["pos"] are index levels, no
    longer columns, and [set_index] fails with a [KeyError].  What is
    idempotent is the ordering the reshape ends with: sorting the
    columns and the rows of a reshaped table again leaves it as it
    is. *)
Theorem indexify_twice df t :
  (∀ a b, index_le a b = true ∨ index_le b a = true) →
  _indexify df = Ok t →
  _indexify t = Err (KeyError [L1 "pipe"; L1 "pos"])
  ∧ sort_columns t = Ok t
  ∧ sort_index t = t.
Proof.
  intros Htotal (df1 & Hset & Hlen & ->)%indexify_shape. split; [|split].
  - reflexivity.
  - unfold sort_columns. cbn [columns rows index_names column_names].
    change (forallb is_L1 sorted_labels
            || forallb (fun c => negb (is_L1 c)) sorted_labels) with true.
    cbn match. do 2 f_equal.
    pose proof (reshaped_row_short (rows df1)) as Hshort.
    induction Hshort as [|r rws Hr Hrws IH]; [done|]. cbn [map]. rewrite IH.
    f_equal. destruct r as [k vals]. cbn [fst snd] in *. f_equal.
    rewrite sorted_fixed by (by apply sorted_zip).
    apply snd_zip_short. exact Hr.
  - unfold sort_index. cbn [columns rows index_names column_names]. f_equal.
    unfold reshaped_rows. apply stable_sort_idem.
    intros r1 r2. by apply key_le_total.
Qed.

(** C9 (as amended).  The reshape labels the derived columns by their
    position, with the labels written in the code: the two columns of
    the secondary-to-receiver ratio get the driver label ["sec"] (not
    ["secondary"]) with detector ["receiver"]; the four columns of the
    ratios to the primary get ("primary", "secondary" or "receiver",
    "amplitude" or "phase"); [sec_harm_db] gets ("primary",
    "secondary", "db"), and [rec_harm_db] a label with driver
    ["primary"] and quantity ["db"]. *)
Theorem indexify_labels df :
  columns df = L1 "pipe" :: L1 "pos" :: derived_columns →
  Forall (fun r => length r.2 = 10) (rows df) →
  ∃ t, _indexify df = Ok t
       ∧ column_names t = ["driver"; "detector"; "quantity"]
       ∧ relabelled df t "prim_sec_amp"
           (fun L => bool_decide (L = L3 "primary" "secondary" "amplitude"))
       ∧ relabelled df t "prim_sec_phi"
           (fun L => bool_decide (L = L3 "primary" "secondary" "phase"))
       ∧ relabelled df t "prim_rec_amp"
           (fun L => bool_decide (L = L3 "primary" "receiver" "amplitude"))
       ∧ relabelled df t "prim_rec_phi"
           (fun L => bool_decide (L = L3 "primary" "receiver" "phase"))
       ∧ relabelled df t "sec_rec_amp"
           (fun L => bool_decide (L = L3 "sec" "receiver" "amplitude"))
       ∧ relabelled df t "sec_rec_phi"
           (fun L => bool_decide (L = L3 "sec" "receiver" "phase"))
       ∧ relabelled df t "sec_harm_db"
           (fun L => bool_decide (L = L3 "primary" "secondary" "db"))
       ∧ relabelled df t "rec_harm_db"
           (fun L => match L with
                     | L3 driver _ quantity =>
                         bool_decide (driver = "primary" ∧ quantity = "db")
                     | L1 _ => false
                     end).
Proof.
  intros Hcols Hrows.
  eexists. split.
  { apply indexify_shape. eexists. split; [apply set_index_ok; by rewrite Hcols|].
    split; [by rewrite Hcols|reflexivity]. }
  split; [reflexivity|].
  cbn [rows columns]. unfold reshaped_rows. rewrite map_map.
  erewrite stable_sort_map with (le := fun r1 r2 => key_le (key_of df r1) (key_of df r2));
    [|reflexivity].
  fold (rows_by_key df).
  assert (Hsorted : Forall (fun r => length r.2 = 10) (rows_by_key df))
    by (by apply stable_sort_Forall).
  assert (Hrel : ∀ c j L (P : label → bool),
            sorted_labels !! j = Some L → P L = true →
            (∀ p q v1 v2 v3 v4 v5 v6 v7 v8,
               let vals := [p; q; v1; v2; v3; v4; v5; v6; v7; v8] in
               map snd (stable_sort (fun a b => label_le a.1 b.1)
                          (zip code_labels
                               (map snd (List.filter
                                           (fun cv => negb (bool_decide
                                               (cv.1 ∈ [L1 "pipe"; L1 "pos"])))
                                           (zip (columns df) vals))))) !! j
               = head (under (columns df) (L1 c) vals)) →
            relabelled df
              {| index_names := ["pipe"; "pos"];
                 column_names := ["driver"; "detector"; "quantity"];
                 columns := sorted_labels;
                 rows := map (fun r =>
                   (key_of df r,
                    map snd (stable_sort (fun a b => label_le a.1 b.1)
                      (zip code_labels
                        (map snd (List.filter
                                    (fun cv => negb (bool_decide
                                        (cv.1 ∈ [L1 "pipe"; L1 "pos"])))
                                    (zip (columns df) r.2)))))))
                   (rows_by_key df) |} c P).
  { intros c j L P Hj HP Hcell. exists j, L. split; [exact Hj|]. split; [exact HP|].
    cbn [rows]. apply Forall2_fmap_r, Forall_Forall2_diag.
    eapply Forall_impl; [exact Hsorted|]. intros [k vals] Hlen. cbn [fst snd] in *.
    split; [reflexivity|].
    do 10 (destruct vals as [|? vals]; [discriminate|]).
    destruct vals; [|discriminate]. apply Hcell. }
  cbn [fst snd index_names].
  repeat split.
  - apply (Hrel "prim_sec_amp" 2 (L3 "primary" "secondary" "amplitude"));
      [reflexivity|reflexivity|intros; rewrite Hcols; reflexivity].
  - apply (Hrel "prim_sec_phi" 5 (L3 "primary" "secondary" "phase"));
      [reflexivity|reflexivity|intros; rewrite Hcols; reflexivity].
  - apply (Hrel "prim_rec_amp" 0 (L3 "primary" "receiver" "amplitude"));
      [reflexivity|reflexivity|intros; rewrite Hcols; reflexivity].
  - apply (Hrel "prim_rec_phi" 1 (L3 "primary" "receiver" "phase"));
      [reflexivity|reflexivity|intros; rewrite Hcols; reflexivity].
  - apply (Hrel "sec_rec_amp" 6 (L3 "sec" "receiver" "amplitude"));
      [reflexivity|reflexivity|intros; rewrite Hcols; reflexivity].
  - apply (Hrel "sec_rec_phi" 7 (L3 "sec" "receiver" "phase"));
      [reflexivity|reflexivity|intros; rewrite Hcols; reflexivity].
  - apply (Hrel "sec_harm_db" 3 (L3 "primary" "secondary" "db"));
      [reflexivity|reflexivity|intros; rewrite Hcols; reflexivity].
  - apply (Hrel "rec_harm_db" 4 (L3 "primary" "secondary" "db"));
      [reflexivity|reflexivity|intros; rewrite Hcols; reflexivity].
Qed.

End Reshape.

(** * Further properties of the code *)

(** ** Failures of the conditioning step *)

Section FilterFailures.
Context `{Lib : Libraries}.

Lemma filter_turn_run df col h t :
  h !! df = Some (OTrace t) →
  (let '(b, a) := butter 8 (float_lit (1 # 100)) in
   bind (getcol df col) (fun x =>
   bind (lift (filtfilt b a x 150)) (fun y => setcol df col y))) h
  = match filter_column t col with
    | Ok t' => (<[df := OTrace t']> h, Ok tt)
    | Err e => (h, Err e)
    end.
Proof.
  intros Ht. unfold filter_column.
  destruct (butter 8 (float_lit (1 # 100))) as [b a].
  unfold getcol, setcol, bind, read_trace, lift, write. rewrite Ht.
  destruct (trace_get t col) as [x|e]; [|reflexivity]. cbn [res_bind].
  destruct (filtfilt b a x 150) as [y|e]; [|reflexivity]. cbn [res_bind].
  rewrite Ht. destruct (trace_set t col y); reflexivity.
Qed.

(** The whole of [filter], failures included. *)
Lemma filter_run df h t :
  h !! df = Some (OTrace t) →
  filter df h
  = match filter_column t "res_volt" with
    | Err e => (h, Err e)
    | Ok t1 =>
        match filter_column t1 "sec_volt" with
        | Err e => (<[df := OTrace t1]> h, Err e)
        | Ok t2 =>
            match filter_column t2 "rec_volt" with
            | Err e => (<[df := OTrace t2]> h, Err e)
            | Ok t3 => (<[df := OTrace t3]> h, Ok df)
            end
        end
    end.
Proof.
  intros Ht. assert (df < length h) by (eapply lookup_lt_Some; eauto).
  unfold filter, filter_cols. cbn [for_each].
  unfold bind at 1. unfold bind at 1.
  rewrite (filter_turn_run df "res_volt" h t Ht).
  destruct (filter_column t "res_volt") as [t1|e]; [|reflexivity].
  unfold bind at 1.
  rewrite (filter_turn_run df "sec_volt" _ t1) by (by apply list_lookup_insert_eq).
  destruct (filter_column t1 "sec_volt") as [t2|e]; [|reflexivity].
  rewrite list_insert_insert_eq.
  unfold bind at 1.
  rewrite (filter_turn_run df "rec_volt" _ t2) by (by apply list_lookup_insert_eq).
  destruct (filter_column t2 "rec_volt") as [t3|e]; [|reflexivity].
  rewrite list_insert_insert_eq. reflexivity.
Qed.

(** X1.  When the first of the three columns cannot be filtered
    (["res_volt"] cannot be read from the table, or the filter refuses
    it), [filter] fails with that error and the table is as it was. *)
Theorem filter_fails_untouched df h t e :
  h !! df = Some (OTrace t) →
  trace_get t "res_volt" = Err e
  ∨ (∃ x, trace_get t "res_volt" = Ok x ∧ butter_filtfilt x = Err e) →
  filter df h = (h, Err e).
Proof.
  intros Ht Hfail. rewrite (filter_run df h t Ht).
  assert (Hcol : filter_column t "res_volt" = Err e).
  { unfold filter_column, butter_filtfilt in *.
    destruct (butter 8 (float_lit (1 # 100))) as [b a]. cbn [fst snd] in Hfail.
    destruct Hfail as [->|(x & -> & Hx)]; [reflexivity|].
    cbn [res_bind]. by rewrite Hx. }
  by rewrite Hcol.
Qed.

(** X2.  [filter] is not all-or-nothing.  When ["res_volt"] has been
    filtered and ["sec_volt"] then cannot be read, [filter] fails, and
    the caller's table already holds the filtered ["res_volt"]; its
    other columns are as they were. *)
Theorem filter_fails_partway df h t x y e :
  h !! df = Some (OTrace t) →
  trace_get t "res_volt" = Ok x →
  butter_filtfilt x = Ok y →
  alen y = nsamples t →
  trace_get t "sec_volt" = Err e →
  ∃ t1, filter df h = (<[df := OTrace t1]> h, Err e)
        ∧ trace_get t1 "res_volt" = Ok y
        ∧ ∀ c, c ≠ "res_volt" → trace_get t1 c = trace_get t c.
Proof.
  intros Ht Hx Hy Hlen Hsec.
  destruct (trace_set_Ok t "res_volt" y Hlen) as [t1 Hset].
  assert (H1 : filter_column t "res_volt" = Ok t1).
  { apply filter_column_ok. exists x, y. done. }
  assert (H2 : filter_column t1 "sec_volt" = Err e).
  { unfold filter_column. destruct (butter 8 (float_lit (1 # 100))) as [b a].
    rewrite (trace_set_other _ _ _ _ "sec_volt" Hset) by done. by rewrite Hsec. }
  exists t1. rewrite (filter_run df h t Ht), H1, H2.
  split; [reflexivity|]. split; [by eapply trace_set_same|].
  intros c Hc. by eapply trace_set_other.
Qed.

End FilterFailures.

(** ** One file, failures included *)

Section OneFileRun.
Context `{Lib : Libraries}.

Lemma bind_lift {A B} (r : res A) (k : A → M B) h :
  bind (lift r) k h = match r with Ok a => k a h | Err e => (h, Err e) end.
Proof. unfold bind, lift. by destruct r. Qed.

Lemma bind_getattr {B} df col (k : ndarray → M B) h t :
  h !! df = Some (OTrace t) →
  bind (getattr df col) k h
  = match attr t col with Ok x => k x h | Err e => (h, Err e) end.
Proof.
  intros Ht. unfold getattr, bind, read_trace, lift. rewrite Ht.
  by destruct (attr t col).
Qed.

(** What [_process_file] returns is decided by the file alone; when it
    fails, the store holds at most one more object, the table of the
    file, and everything that was in it is as it was. *)
Lemma process_file_run self file kd h d :
  h !! kd = Some (ODict d) →
  ∃ h', _process_file self file kd h
        = (h', res_bind (record self file d) (fun _ => Ok kd))
        ∧ (is_ok (record self file d) = false →
           h' = h ∨ ∃ t, h' = h ++ [OTrace t]).
Proof.
  intros Hd. unfold _process_file, record. rewrite bind_lift.
  destruct (CSV file (float_lit (1000000000 # 1)) (channel_mapper self)) as [tbl|e];
    [|eexists; split; [reflexivity|by left]].
  cbn [res_bind]. unfold bind at 1. unfold alloc at 1. unfold bind at 1.
  rewrite (filter_run _ _ _ (lookup_last h _)). unfold filtered.
  destruct (filter_column _ "res_volt") as [t1|e];
    [|eexists; split; [reflexivity|right; eauto]].
  cbn [res_bind]. rewrite insert_last.
  destruct (filter_column t1 "sec_volt") as [t2|e];
    [|eexists; split; [reflexivity|right; eauto]].
  cbn [res_bind]. rewrite insert_last.
  destruct (filter_column t2 "rec_volt") as [t3|e];
    [|eexists; split; [reflexivity|right; eauto]].
  cbn [res_bind]. rewrite insert_last.
  unfold summary, harm_db.
  repeat (first [ rewrite (bind_getattr _ _ _ _ t3 (lookup_last h _))
                | rewrite bind_lift ];
          first
            [ match goal with
              | E : ?r = Ok _ |- context [match ?r with Ok _ => _ | Err _ => _ end] =>
                  rewrite E
              end
            | match goal with
              | |- context [match ?r with Ok _ => _ | Err _ => _ end] =>
                  destruct r eqn:?; [|eexists; split; [reflexivity|right; eauto]]
              end ];
          cbn [res_bind]).
  unfold bind, read_dict, write, ret.
  rewrite (proj2 (lookup_dict_grown h t3 kd d) Hd).
  eexists. split; [reflexivity|discriminate].
Qed.

(** X3.  A call of [_process_file] that returns has written into the
    key dictionary it was given and into nothing else that was in the
    store; the one object it adds is the table of the file, with its
    three columns filtered. *)
Theorem process_file_frame self file kd h h' out :
  _process_file self file kd h = (h', Ok out) →
  length h' = S (length h)
  ∧ (∀ l, l ≠ kd → l < length h → h' !! l = h !! l)
  ∧ ∃ tbl t, CSV file (float_lit (1000000000 # 1)) (channel_mapper self) = Ok tbl
             ∧ filtered {| nsamples := tbl.1; channels := tbl.2 |} = Ok t
             ∧ h' !! length h = Some (OTrace t).
Proof.
  intros Hrun.
  apply _process_file_succeeds in Hrun
    as (tbl & t & fields & d & Hcsv & Hf & _ & Hd & -> & ->).
  assert (kd < length h) by (eapply lookup_lt_Some; eauto).
  split; [rewrite length_insert, length_app; simpl; lia|].
  split.
  - intros l Hl Hlt. rewrite list_lookup_insert_ne by done. by rewrite lookup_app_l.
  - exists tbl, t. split; [done|]. split; [done|].
    rewrite list_lookup_insert_ne by lia. apply lookup_last.
Qed.

(** X4.  A call of [_process_file] that fails has not touched the key
    dictionary, nor anything else that was in the store: the derived
    fields are written last, when nothing can fail any more. *)
Theorem process_file_failure_keeps_keys self file kd h d h' e :
  h !! kd = Some (ODict d) →
  _process_file self file kd h = (h', Err e) →
  record self file d = Err e
  ∧ ∀ l, l < length h → h' !! l = h !! l.
Proof.
  intros Hd Hrun. destruct (process_file_run self file kd h d Hd) as (h1 & Hrun1 & Hstore).
  rewrite Hrun in Hrun1. injection Hrun1 as <- Hres.
  destruct (record self file d) as [rec|e'] eqn:Hrec; [discriminate|].
  injection Hres as <-. split; [done|].
  intros l Hl. destruct (Hstore eq_refl) as [->|[t ->]]; [done|].
  by rewrite lookup_app_l.
Qed.

End OneFileRun.

(** ** The batch: columns of the table, and what the pipe keeps *)

Section BatchTable.
Context `{Lib : Libraries}.

Lemma items_of_run cols row ks h :
  mapM (fun k => bind (lift (series_get cols row k)) (fun v => ret (k, v))) ks h
  = (h, items_of cols row ks).
Proof.
  induction ks as [|k ks IH]; [reflexivity|]. cbn [mapM items_of].
  unfold bind at 1. rewrite bind_lift.
  destruct (series_get cols row k) as [v|e]; [|reflexivity].
  cbn [res_bind]. unfold ret at 1. unfold bind at 1. rewrite IH.
  by destruct (items_of cols row ks).
Qed.

(** One turn of the loop of [process], failures included. *)
Lemma process_rows_step (delay_func : cell → nat → M future) cols key_names
    r rws futs kdo h :
  process_rows delay_func cols key_names (r :: rws) futs kdo h
  = match series_get cols r.2 (L1 "file_name") with
    | Err e => (h, Err e)
    | Ok file =>
        match items_of cols r.2 key_names with
        | Err e => (h, Err e)
        | Ok items =>
            match delay_func file (length h) (h ++ [ODict (dict_of items)]) with
            | (h2, Ok fut) =>
                process_rows delay_func cols key_names rws (futs ++ [fut])
                             (Some (length h)) h2
            | (h2, Err e) => (h2, Err e)
            end
        end
    end.
Proof.
  destruct r as [idx row]. cbn [process_rows snd]. rewrite bind_lift.
  destruct (series_get cols row (L1 "file_name")) as [file|e]; [|reflexivity].
  unfold bind at 1. rewrite items_of_run.
  destruct (items_of cols row key_names) as [items|e]; [|reflexivity].
  unfold bind at 1. unfold alloc at 1. unfold bind at 1.
  by destruct (delay_func file (length h) (h ++ [ODict (dict_of items)])) as [h2 [fut|e]].
Qed.

Lemma filter_zip_nil {A B} (p : A → bool) (l : list A) (vals : list B) :
  List.filter p l = [] → List.filter (fun cv => p cv.1) (zip l vals) = [].
Proof.
  revert vals. induction l as [|x l IH]; intros [|v vals]; simpl; try done.
  destruct (p x); [discriminate|]. apply IH.
Qed.

(** X5.  A batch descriptor that has rows but no ["file_name"] column
    makes [process] fail with a [KeyError] for ["file_name"] at the
    first row, in either mode, before any file is read and with the
    store as it was. *)
Theorem process_needs_file_name self indexed completion h :
  rows (df_log self) ≠ [] →
  List.filter (selects (L1 "file_name")) (columns (df_log self)) = [] →
  process self indexed completion h = (h, Err (KeyError [L1 "file_name"])).
Proof.
  intros Hrows Hcols. unfold process.
  destruct (rows (df_log self)) as [|r rws]; [done|].
  assert (Hget : series_get (columns (df_log self)) r.2 (L1 "file_name")
                 = Err (KeyError [L1 "file_name"])).
  { unfold series_get. by rewrite (filter_zip_nil _ _ _ Hcols). }
  destruct (1 <? n_jobs self)%Z; cbv zeta; unfold bind at 1;
    by rewrite process_rows_step, Hget.
Qed.

Lemma items_of_keys cols row ks items :
  items_of cols row ks = Ok items → map fst items = ks.
Proof.
  revert items. induction ks as [|k ks IH]; intros items; cbn [items_of].
  - by intros [= <-].
  - intros (v & _ & (rest & Hrest & [= <-])%res_bind_ok)%res_bind_ok.
    cbn [map fst]. by rewrite (IH _ Hrest).
Qed.

Lemma dict_set_fresh {V} (d : dict V) k v :
  k ∉ dict_keys d → dict_set d k v = d ++ [(k, v)].
Proof.
  unfold dict_keys. induction d as [|[k' v'] d IH]; intros Hk; simpl; [done|].
  simpl in Hk. apply not_elem_of_cons in Hk as [Hne Hk].
  rewrite decide_False by done. by rewrite IH.
Qed.

Lemma dict_update_fresh {V} (d kvs : dict V) :
  NoDup (map fst kvs) → (∀ k, k ∈ map fst kvs → k ∉ dict_keys d) →
  dict_update d kvs = d ++ kvs.
Proof.
  unfold dict_update. revert d. induction kvs as [|[k v] kvs IH]; intros d Hnd Hfresh; simpl.
  - by rewrite app_nil_r.
  - simpl in Hnd. apply NoDup_cons in Hnd as [Hk Hnd].
    rewrite dict_set_fresh by (apply Hfresh; simpl; by left).
    rewrite IH; [by rewrite <- app_assoc|done|].
    intros k' Hk' Hin. unfold dict_keys in Hin. rewrite map_app in Hin.
    apply elem_of_app in Hin as [Hin|Hin].
    + eapply Hfresh; [|exact Hin]. simpl. by right.
    + simpl in Hin. apply list_elem_of_singleton in Hin as ->. done.
Qed.

Lemma summary_fields self t fields :
  summary self t = Ok fields →
  map fst fields = derived_columns
  ∧ ∀ d k, k ∈ derived_columns → k ∈ dict_keys (dict_update d fields).
Proof.
  unfold summary. intros Hs.
  repeat match type of Hs with
         | res_bind _ _ = Ok _ =>
             let E := fresh "E" in
             apply res_bind_ok in Hs as (? & E & Hs)
         end.
  injection Hs as <-. split; [reflexivity|].
  intros d k Hk. apply dict_keys_update. by right.
Qed.

Lemma record_shape self file d rec :
  record self file d = Ok rec →
  ∃ fields, rec = dict_update d fields ∧ map fst fields = derived_columns.
Proof.
  unfold record.
  intros (tbl & _ & (t & _ & (fields & Hs & [= <-])%res_bind_ok)%res_bind_ok)%res_bind_ok.
  exists fields. split; [done|]. by apply summary_fields in Hs as [? _].
Qed.

Lemma last_or_seq k n l :
  last_or None (seq k n) = Some l → ∃ m, n = S m ∧ l = k + m.
Proof.
  unfold last_or. destruct n as [|m]; [discriminate|].
  rewrite last_seq. intros [= <-]. eauto.
Qed.

(** All of what a successful [process] returns: the table is made of
    the records of the rows, under the keys of the last [key_dict]
    followed by the derived columns, and it is stored in the pipe.  In
    parallel mode that dictionary holds the key fields of the last row;
    in sequential mode it is the last record. *)
Lemma process_result self indexed completion h h' self' tbl :
  process self indexed completion h = (h', Ok (self', tbl)) →
  let cols := columns (df_log self) in
  let key_names := List.filter (fun c => negb (bool_decide (c = L1 "file_name"))) cols in
  ∃ recs keys,
    Forall2 (fun r rec => unit_of_work self r = Ok rec) (rows (df_log self)) recs
    ∧ tbl = DataFrame_of_records recs (keys ++ derived_columns)
    ∧ self' = {| df_log := df_log self;
                 channel_mapper := channel_mapper self;
                 n_jobs := n_jobs self;
                 harmonics := harmonics self;
                 verbose := verbose self;
                 _df := Some tbl |}
    ∧ if (1 <? n_jobs self)%Z
      then ∃ r items, last (rows (df_log self)) = Some r
                      ∧ items_of cols r.2 key_names = Ok items
                      ∧ keys = dict_keys (dict_of items)
      else ∃ rec, last recs = Some rec ∧ keys = dict_keys rec.
Proof.
  unfold process. destruct (1 <? n_jobs self)%Z; cbv zeta;
    intros ([futs kdo] & h1 & Hloop & Hrun)%bind_ok.
  - apply rows_parallel in Hloop as (tasks & Hrows & -> & -> & ->). simpl in Hrun.
    apply bind_ok in Hrun as (locs & h2 & (recs & Hruns & -> & ->)%compute_parallel & Hrun).
    apply bind_ok in Hrun as (keys & h3 & (l & d & Hl & Hd & -> & ->)%key_dict_ok & Hrun).
    apply bind_ok in Hrun
      as (recs' & h4 & [Hread ->]%mapM_read_dict & [[= -> ->] ->]%ret_ok).
    rewrite (Forall2_length _ _ _ Hruns) in Hread.
    pose proof (lookup_dict_unique _ _ _ _ Hread (lookup_appended _ recs)) as ->.
    exists recs, (dict_keys d). split; [apply units_tasks; eauto|].
    split; [done|]. split; [done|].
    apply last_or_seq in Hl as (m & Hm & ->).
    assert (Ht : ∃ t, tasks !! m = Some t) by (apply lookup_lt_is_Some; lia).
    destruct Ht as [t Ht].
    rewrite lookup_app_l in Hd by (rewrite length_app, length_map; lia).
    rewrite lookup_app_r, lookup_map in Hd by lia.
    replace (length h + m - length h) with m in Hd by lia.
    rewrite Ht in Hd. injection Hd as <-.
    destruct (Forall2_lookup_r _ _ _ _ _ Hrows Ht) as (r & Hr & Hfile & items & Hitems & Ht2).
    exists r, items. split; [|split; [done|by rewrite Ht2]].
    rewrite last_lookup, (Forall2_length _ _ _ Hrows), Hm. exact Hr.
  - apply rows_sequential in Hloop
      as (recs & locs & Hunits & -> & Hlocs & _ & _ & ->). simpl in Hrun.
    rewrite (bind_run _ _ h1 h1 locs) in Hrun by apply fake_compute_results.
    apply bind_ok in Hrun as (keys & h3 & (l & d & Hl & Hd & -> & ->)%key_dict_ok & Hrun).
    apply bind_ok in Hrun
      as (recs' & h4 & [Hread ->]%mapM_read_dict & [[= -> ->] ->]%ret_ok).
    pose proof (lookup_dict_unique _ _ _ _ Hread Hlocs) as ->.
    exists recs, (dict_keys d). split; [done|]. split; [done|]. split; [done|].
    exists d. split; [|done].
    unfold last_or in Hl. destruct (last locs) as [l'|] eqn:Hlast; [|discriminate].
    injection Hl as ->. rewrite last_lookup in Hlast.
    destruct (Forall2_lookup_l _ _ _ _ _ Hlocs Hlast) as (rec & Hrec & Hl).
    rewrite Hd in Hl. injection Hl as <-.
    by rewrite last_lookup, <- (Forall2_length _ _ _ Hlocs).
Qed.

Lemma NoDup_list_filter {A} (p : A → bool) (l : list A) :
  NoDup l → NoDup (List.filter p l).
Proof. rewrite !NoDup_ListNoDup. apply List.NoDup_filter. Qed.

Lemma dict_of_items cols row ks items :
  NoDup ks → items_of cols row ks = Ok items →
  dict_of items = items ∧ dict_keys items = ks.
Proof.
  intros Hnd Hitems. apply items_of_keys in Hitems as Hkeys. split; [|done].
  unfold dict_of. rewrite dict_update_fresh; [done|by rewrite Hkeys|].
  intros k _ Hin. by apply elem_of_nil in Hin.
Qed.

Lemma parallel_table_columns_aux self indexed completion h h' self' tbl :
  (1 < n_jobs self)%Z →
  NoDup (columns (df_log self)) →
  process self indexed completion h = (h', Ok (self', tbl)) →
  columns tbl
  = List.filter (fun c => negb (bool_decide (c = L1 "file_name")))
                (columns (df_log self))
    ++ derived_columns.
Proof.
  intros Hjobs Hnd Hrun.
  destruct (process_result _ _ _ _ _ _ _ Hrun) as (recs & keys & _ & -> & _ & Hkeys).
  apply Z.ltb_lt in Hjobs. rewrite Hjobs in Hkeys.
  destruct Hkeys as (r & items & _ & Hitems & ->). cbn [columns DataFrame_of_records].
  destruct (dict_of_items _ _ _ _ (NoDup_list_filter _ _ Hnd) Hitems) as [-> ->].
  reflexivity.
Qed.

(** X6.  In parallel mode, for a descriptor whose column labels are
    all different, the columns of the result table are the columns of
    the descriptor other than ["file_name"], in their order, followed
    by the eight derived columns in their fixed order. *)
Theorem parallel_table_columns self indexed completion h h' self' tbl :
  (1 < n_jobs self)%Z →
  NoDup (columns (df_log self)) →
  process self indexed completion h = (h', Ok (self', tbl)) →
  columns tbl
  = List.filter (fun c => negb (bool_decide (c = L1 "file_name")))
                (columns (df_log self))
    ++ derived_columns.
Proof. apply parallel_table_columns_aux. Qed.

(** X7.  In sequential mode [_process_file] has written the derived
    fields into the dictionary of the last row by the time the column
    list is read off it, so the table names the derived columns twice:
    after the key columns come the eight derived columns, and then the
    eight derived columns again. *)
Theorem sequential_table_columns_twice self indexed completion h h' self' tbl :
  (n_jobs self ≤ 1)%Z →
  NoDup (columns (df_log self)) →
  (∀ c, c ∈ derived_columns → c ∉ columns (df_log self)) →
  process self indexed completion h = (h', Ok (self', tbl)) →
  columns tbl
  = List.filter (fun c => negb (bool_decide (c = L1 "file_name")))
                (columns (df_log self))
    ++ derived_columns ++ derived_columns.
Proof.
  intros Hjobs Hnd Hfresh Hrun.
  destruct (process_result _ _ _ _ _ _ _ Hrun) as (recs & keys & Hunits & -> & _ & Hkeys).
  assert (Hseq : (1 <? n_jobs self)%Z = false) by (apply Z.ltb_ge; lia).
  rewrite Hseq in Hkeys. destruct Hkeys as (rec & Hlast & ->).
  cbn [columns DataFrame_of_records]. rewrite app_assoc. f_equal.
  rewrite last_lookup in Hlast.
  destruct (Forall2_lookup_r _ _ _ _ _ Hunits Hlast) as (r & _ & Hunit).
  apply unit_of_work_ok in Hunit as (file & items & _ & Hitems & Hrec).
  destruct (dict_of_items _ _ _ _ (NoDup_list_filter _ _ Hnd) Hitems) as [Hd Hk].
  rewrite Hd in Hrec. apply record_shape in Hrec as (fields & -> & Hfields).
  rewrite dict_update_fresh.
  - unfold dict_keys in *. by rewrite map_app, Hk, Hfields.
  - rewrite Hfields. unfold derived_columns.
    repeat (apply NoDup_cons; split; [intros Hin; apply list_elem_of_In in Hin;
              cbn in Hin; intuition discriminate|]).
    apply NoDup_nil; done.
  - rewrite Hfields. intros k Hk' Hin. rewrite Hk in Hin.
    apply list_elem_of_In, List.filter_In in Hin as [Hin _].
    apply list_elem_of_In in Hin. by eapply Hfresh.
Qed.

Lemma set_index_columns keys df df1 :
  set_index keys df = Ok df1 →
  columns df1
  = List.filter (fun c => negb (bool_decide (c ∈ map L1 keys))) (columns df).
Proof.
  unfold set_index.
  destruct (List.filter _ keys); [|discriminate].
  destruct (forallb _ keys); [|discriminate]. by intros [= <-].
Qed.

(** X8.  A table that [process] has built in sequential mode (the
    default, [n_jobs=1]) cannot be reshaped: whatever the descriptor,
    [df_indexed] fails on it, because the table has sixteen derived
    columns where the reshape has labels for eight. *)
Theorem sequential_table_never_reshapes self indexed completion h h' self' tbl :
  (n_jobs self ≤ 1)%Z →
  process self indexed completion h = (h', Ok (self', tbl)) →
  ∀ t, df_indexed self' ≠ Ok t.
Proof.
  intros Hjobs Hrun t.
  destruct (process_result _ _ _ _ _ _ _ Hrun) as (recs & keys & Hunits & -> & -> & Hkeys).
  assert (Hseq : (1 <? n_jobs self)%Z = false) by (apply Z.ltb_ge; lia).
  rewrite Hseq in Hkeys. destruct Hkeys as (rec & Hlast & ->).
  unfold df_indexed. cbn [_df].
  intros (df1 & Hset & Hlen & _)%indexify_shape.
  apply set_index_columns in Hset. rewrite Hset in Hlen.
  cbn [columns DataFrame_of_records] in Hlen.
  rewrite List.filter_app, length_app in Hlen.
  change (length (List.filter _ derived_columns)) with 8 in Hlen.
  rewrite last_lookup in Hlast.
  destruct (Forall2_lookup_r _ _ _ _ _ Hunits Hlast) as (r & _ & Hunit).
  apply unit_of_work_ok in Hunit as (file & items & _ & _ & Hrec).
  apply record_shape in Hrec as (fields & -> & Hfields).
  assert (Hincl : incl derived_columns
            (List.filter (fun c => negb (bool_decide (c ∈ map L1 ["pipe"; "pos"])))
                         (dict_keys (dict_update (dict_of items) fields)))).
  { intros c Hc. apply List.filter_In. split.
    - apply list_elem_of_In, dict_keys_update. right.
      unfold dict_keys. rewrite Hfields. by apply list_elem_of_In.
    - unfold derived_columns in Hc. cbn in Hc.
      repeat (destruct Hc as [<-|Hc]; [reflexivity|]). done. }
  apply NoDup_incl_length in Hincl.
  - change (length derived_columns) with 8 in Hincl. lia.
  - unfold derived_columns.
    repeat (apply List.NoDup_cons; [cbn; intuition discriminate|]).
    apply List.NoDup_nil.
Qed.

(** X9.  In parallel mode, a descriptor that has the three columns
    ["pipe"], ["pos"] and ["file_name"], in any order, gives a table
    that can be reshaped: [df_indexed] then returns a table with one
    row per row of the descriptor. *)
Theorem parallel_table_reshapes self indexed completion h h' self' tbl :
  (1 < n_jobs self)%Z →
  NoDup (columns (df_log self)) →
  (∀ c, c ∈ columns (df_log self) ↔ c ∈ [L1 "pipe"; L1 "pos"; L1 "file_name"]) →
  process self indexed completion h = (h', Ok (self', tbl)) →
  ∃ t, df_indexed self' = Ok t
       ∧ index_names t = ["pipe"; "pos"]
       ∧ length (rows t) = length (rows (df_log self)).
Proof.
  intros Hjobs Hnd Hcols Hrun.
  pose proof (parallel_table_columns_aux self indexed completion h h' self' tbl Hjobs Hnd Hrun)
    as Hcolumns.
  destruct (process_result _ _ _ _ _ _ _ Hrun) as (recs & keys & Hunits & Htbl & -> & _).
  set (key_names := List.filter (fun c => negb (bool_decide (c = L1 "file_name")))
                                (columns (df_log self))) in *.
  assert (Hperm : Permutation [L1 "pipe"; L1 "pos"] key_names).
  { apply NoDup_Permutation.
    - repeat (apply NoDup_cons; split; [intros Hin; apply list_elem_of_In in Hin;
                cbn in Hin; intuition discriminate|]).
      apply NoDup_nil; done.
    - by apply NoDup_list_filter.
    - intros c. unfold key_names. rewrite !list_elem_of_In, List.filter_In.
      rewrite <- !list_elem_of_In, Hcols, negb_true_iff, bool_decide_eq_false.
      rewrite !elem_of_cons, elem_of_nil. split.
      + intros [->| [->|[]]]; split; auto; discriminate.
      + intros [[->|[->|[->|[]]]] Hne]; auto; done. }
  assert (Hrows : length (rows tbl) = length (rows (df_log self))).
  { rewrite Htbl. cbn [rows DataFrame_of_records]. rewrite length_map.
    symmetry. by eapply Forall2_length. }
  unfold df_indexed. cbn [_df].
  assert (Hok : ∃ df1, set_index ["pipe"; "pos"] tbl = Ok df1
                       ∧ length (columns df1) = 8
                       ∧ length (rows df1) = length (rows tbl)).
  { eexists. split; [apply set_index_ok|split; [|cbn [rows]; by rewrite length_map]];
      rewrite Hcolumns;
      apply Permutation_length_2_inv in Hperm as [->| ->]; reflexivity. }
  destruct Hok as (df1 & Hset & Hlen & Hrows1).
  eexists. split; [apply indexify_shape; eauto|].
  split; [cbn [index_names]|cbn [rows]].
  - rewrite (set_index_ok tbl) in Hset; [by injection Hset as <-|..];
      rewrite Hcolumns;
      apply Permutation_length_2_inv in Hperm as [->| ->]; reflexivity.
  - unfold reshaped_rows. rewrite stable_sort_length, length_map. congruence.
Qed.

(** X10.  [process] keeps the table it returns: afterwards the
    property [df] gives that table, [df_indexed] is the reshape of it,
    and the settings of the pipe are what they were.  Before [process]
    has run both properties fail. *)
Theorem process_stores_table self indexed completion h h' self' tbl :
  process self indexed completion h = (h', Ok (self', tbl)) →
  df self' = Ok tbl
  ∧ df_indexed self' = _indexify tbl
  ∧ df_log self' = df_log self
  ∧ channel_mapper self' = channel_mapper self
  ∧ n_jobs self' = n_jobs self
  ∧ harmonics self' = harmonics self
  ∧ ∀ log mapper jobs vb harmonic,
      df (__init__ log mapper jobs vb harmonic) = Err (AttributeError "copy")
      ∧ df_indexed (__init__ log mapper jobs vb harmonic)
        = Err (AttributeError "set_index").
Proof.
  intros Hrun.
  destruct (process_result _ _ _ _ _ _ _ Hrun) as (recs & keys & _ & _ & -> & _).
  repeat split.
Qed.

End BatchTable.

(** ** The batch: which failure is reported *)

Section BatchFailures.
Context `{Lib : Libraries}.

(** A worker and the functional reading agree on failures too. *)
Lemma run_worker_is_record self file d :
  run_worker (_process_file self) file d = record self file d.
Proof.
  destruct (record self file d) as [rec|e] eqn:Hrec.
  - by apply run_worker_record.
  - unfold run_worker.
    destruct (process_file_run self file 0 [ODict d] d eq_refl) as (h' & Hrun & _).
    rewrite Hrun, Hrec. reflexivity.
Qed.

Lemma process_rows_app (delay_func : cell → nat → M future) cols key_names
    pre rest :
  ∀ futs kdo h h1 futs1 kdo1,
    process_rows delay_func cols key_names pre futs kdo h = (h1, Ok (futs1, kdo1)) →
    process_rows delay_func cols key_names (pre ++ rest) futs kdo h
    = process_rows delay_func cols key_names rest futs1 kdo1 h1.
Proof.
  induction pre as [|r pre IH]; intros futs kdo h h1 futs1 kdo1.
  - simpl. by intros [= -> -> ->].
  - rewrite <- app_comm_cons, !process_rows_step.
    destruct (series_get cols r.2 (L1 "file_name")); [|discriminate].
    destruct (items_of cols r.2 key_names); [|discriminate].
    destruct (delay_func _ _ _) as [h2 [fut|e]]; [|discriminate].
    apply IH.
Qed.

(** X11.  In sequential mode the files are analysed in the order of
    the descriptor and the first failure ends the batch: [process]
    fails with the error of the first row whose unit of work fails,
    whatever the rows after it hold. *)
Theorem sequential_first_failure self indexed completion h pre r post recs e :
  (n_jobs self ≤ 1)%Z →
  rows (df_log self) = pre ++ r :: post →
  Forall2 (fun r rec => unit_of_work self r = Ok rec) pre recs →
  unit_of_work self r = Err e →
  (process self indexed completion h).2 = Err e.
Proof.
  intros Hjobs Hrows Hpre Hfail. unfold process.
  assert (Hseq : (1 <? n_jobs self)%Z = false) by (apply Z.ltb_ge; lia).
  rewrite Hseq, Hrows. cbv zeta.
  destruct (rows_sequential_run self pre recs Hpre [] None h)
    as (h1 & locs & Hloop & _ & _ & _).
  cbv zeta in Hloop.
  assert (Hrow : ∃ h2, process_rows (fake_delayed (_process_file self))
                   (columns (df_log self))
                   (List.filter (fun c => negb (bool_decide (c = L1 "file_name")))
                                (columns (df_log self)))
                   (pre ++ r :: post) [] None h = (h2, Err e)).
  { rewrite (process_rows_app _ _ _ _ _ _ _ _ _ _ _ Hloop), process_rows_step.
    unfold unit_of_work in Hfail.
    destruct (series_get _ r.2 (L1 "file_name")) as [file|e1];
      [|injection Hfail as <-; eauto].
    cbn [res_bind] in Hfail.
    destruct (items_of _ r.2 _) as [items|e1]; [|injection Hfail as <-; eauto].
    cbn [res_bind] in Hfail. rewrite run_worker_is_record in Hfail.
    unfold fake_delayed, bind.
    destruct (process_file_run self file (length h1)
                (h1 ++ [ODict (dict_of items)]) (dict_of items) (lookup_last _ _))
      as (h2 & Hrun & _).
    rewrite Hrun, Hfail. cbn [res_bind]. eauto. }
  destruct Hrow as (h2 & Hrow). unfold bind at 1. by rewrite Hrow.
Qed.

Lemma run_tasks_fails (f : cell → nat → M nat) (tasks : list (cell * dict cell))
    pre i rest t e :
  (∀ j t', j ∈ pre → tasks !! j = Some t' → is_ok (run_worker f t'.1 t'.2) = true) →
  tasks !! i = Some t →
  run_worker f t.1 t.2 = Err e →
  ∀ fin, run_tasks (pre ++ i :: rest) (map (fun t => Task f t.1 t.2) tasks) fin = Err e.
Proof.
  intros Hpre Ht Hfail. induction pre as [|j pre IH]; intros fin; simpl.
  - rewrite lookup_map, Ht. simpl. by rewrite Hfail.
  - rewrite lookup_map.
    assert (IH' := IH (fun j' t' Hj' => Hpre j' t' (list_elem_of_further _ _ _ Hj'))).
    destruct (tasks !! j) as [t'|] eqn:Hj; simpl; [|apply IH'].
    pose proof (Hpre j t' (list_elem_of_here _ _) Hj) as Hok.
    destruct (run_worker f t'.1 t'.2); [apply IH'|discriminate].
Qed.

Lemma readable_rows_tasks self (rws : list (list cell * list cell)) :
  let cols := columns (df_log self) in
  let key_names := List.filter (fun c => negb (bool_decide (c = L1 "file_name"))) cols in
  Forall (fun r => ∃ file items, series_get cols r.2 (L1 "file_name") = Ok file
                                 ∧ items_of cols r.2 key_names = Ok items) rws →
  ∃ tasks : list (cell * dict cell),
    Forall2 (fun r t => series_get cols r.2 (L1 "file_name") = Ok t.1
                        ∧ ∃ items, items_of cols r.2 key_names = Ok items
                                   ∧ t.2 = dict_of items) rws tasks
    ∧ Forall2 (fun r t => unit_of_work self r = run_worker (_process_file self) t.1 t.2)
              rws tasks.
Proof.
  intros cols key_names. induction 1 as [|r rws (file & items & Hfile & Hitems) _ IH].
  - exists []. split; constructor.
  - destruct IH as (tasks & H1 & H2). exists ((file, dict_of items) :: tasks).
    split; constructor; try done; simpl; eauto.
    unfold unit_of_work. fold cols key_names. by rewrite Hfile, Hitems.
Qed.

(** X12.  In parallel mode the failure that is reported depends on the
    order in which the tasks complete: when the key fields of every row
    can be read, [process] fails with the error of the first task to
    fail in completion order, which need not be the first failing row
    of the descriptor. *)
Theorem parallel_first_failure self indexed h pre i rest r e :
  let cols := columns (df_log self) in
  let key_names := List.filter (fun c => negb (bool_decide (c = L1 "file_name"))) cols in
  (1 < n_jobs self)%Z →
  Forall (fun r => ∃ file items, series_get cols r.2 (L1 "file_name") = Ok file
                                 ∧ items_of cols r.2 key_names = Ok items)
         (rows (df_log self)) →
  (∀ j r', j ∈ pre → rows (df_log self) !! j = Some r' →
           is_ok (unit_of_work self r') = true) →
  rows (df_log self) !! i = Some r →
  unit_of_work self r = Err e →
  (process self indexed (pre ++ i :: rest) h).2 = Err e.
Proof.
  intros cols key_names Hjobs Hread Hpre Hi Hfail.
  destruct (readable_rows_tasks self _ Hread) as (tasks & Hrows & Hunits).
  unfold process. apply Z.ltb_lt in Hjobs. rewrite Hjobs. cbv zeta.
  erewrite bind_run; cycle 1.
  { apply rows_parallel. exists tasks. split; [exact Hrows|done]. }
  cbv beta iota. rewrite app_nil_l.
  destruct (Forall2_lookup_l _ _ _ _ _ Hunits Hi) as (t & Ht & Heq).
  unfold compute. unfold bind at 1. unfold bind at 1. unfold lift.
  rewrite (run_tasks_fails (_process_file self) tasks pre i rest t e); [reflexivity| |done|congruence].
  intros j t' Hj Ht'.
  destruct (Forall2_lookup_r _ _ _ _ _ Hunits Ht') as (r' & Hr' & Heq').
  rewrite <- Heq'. by eapply Hpre.
Qed.

End BatchFailures.

(** ** The reshape: when it succeeds, and what it keeps *)

Section ReshapeOutcome.
Context `{Lib : Libraries}.

Lemma selects_flat k c : is_L1 c = true → selects (L1 k) c = bool_decide (L1 k = c).
Proof. by destruct c. Qed.

Lemma filter_ext_Forall {A} (p q : A → bool) (P : A → Prop) l :
  Forall P l → (∀ x, P x → p x = q x) → List.filter p l = List.filter q l.
Proof.
  intros Hl Hpq. induction Hl as [|x l Hx Hl IH]; simpl; [done|].
  by rewrite IH, (Hpq x Hx).
Qed.

Lemma filter_eq_absent {A} `{EqDecision A} (x : A) l :
  x ∉ l → List.filter (fun c => bool_decide (x = c)) l = [].
Proof.
  induction l as [|y l IH]; simpl; [done|].
  intros [Hne Hl]%not_elem_of_cons. by rewrite bool_decide_eq_false_2, IH.
Qed.

Lemma filter_eq_present {A} `{EqDecision A} (x : A) l :
  NoDup l → x ∈ l → List.filter (fun c => bool_decide (x = c)) l = [x].
Proof.
  induction 1 as [|y l Hy Hl IH]; simpl; [by intros ?%elem_of_nil|].
  intros [->|Hin]%elem_of_cons.
  - by rewrite bool_decide_eq_true_2, filter_eq_absent.
  - rewrite bool_decide_eq_false_2 by (intros ->; done). by apply IH.
Qed.

Lemma existsb_elem {A} `{EqDecision A} (x : A) l :
  existsb (fun c => bool_decide (x = c)) l = bool_decide (x ∈ l).
Proof.
  induction l as [|y l IH]; cbn [existsb].
  - symmetry. apply bool_decide_eq_false_2. by intros ?%elem_of_nil.
  - rewrite IH. destruct (bool_decide_reflect (x = y)) as [->|Hne]; cbn [orb].
    + symmetry. apply bool_decide_eq_true_2. by left.
    + apply bool_decide_ext. rewrite elem_of_cons. tauto.
Qed.

Lemma existsb_selects_flat k l :
  Forall (fun c => is_L1 c = true) l →
  existsb (selects (L1 k)) l = bool_decide (L1 k ∈ l).
Proof.
  intros Hflat. rewrite <- existsb_elem.
  induction Hflat as [|c l Hc _ IH]; cbn [existsb]; [done|].
  by rewrite IH, selects_flat.
Qed.

Lemma filter_partition_length {A} (p : A → bool) l :
  length (List.filter p l) + length (List.filter (fun x => negb (p x)) l) = length l.
Proof.
  induction l as [|x l IH]; simpl; [done|]. destruct (p x); simpl; lia.
Qed.

(** X13.  What the reshape does with a flat table whose column names
    are all different.  If ["pipe"] or ["pos"] is not a column it fails
    with a [KeyError] that lists the missing keys; if both are columns
    and the table has not exactly eight other columns it fails with
    [ValueError "Length mismatch"]; otherwise it succeeds. *)
Theorem indexify_outcome df :
  NoDup (columns df) →
  Forall (fun c => is_L1 c = true) (columns df) →
  let missing :=
    List.filter (fun k => negb (bool_decide (L1 k ∈ columns df))) ["pipe"; "pos"] in
  (missing ≠ [] → _indexify df = Err (KeyError (map L1 missing)))
  ∧ (missing = [] → length (columns df) ≠ 10 →
     _indexify df = Err (ValueError "Length mismatch"))
  ∧ (missing = [] → length (columns df) = 10 → ∃ t, _indexify df = Ok t).
Proof.
  intros Hnd Hflat missing.
  assert (Hsel : ∀ k, List.filter (selects (L1 k)) (columns df)
                      = List.filter (fun c => bool_decide (L1 k = c)) (columns df)).
  { intros k. eapply filter_ext_Forall; [exact Hflat|]. intros c Hc. by apply selects_flat. }
  assert (Hex : ∀ k, existsb (selects (L1 k)) (columns df)
                     = bool_decide (L1 k ∈ columns df)).
  { intros k. by apply existsb_selects_flat. }
  assert (Hmissing : List.filter (fun k => negb (existsb (selects (L1 k)) (columns df)))
                                 ["pipe"; "pos"] = missing).
  { unfold missing. cbn [List.filter]. by rewrite !Hex. }
  split; [|split].
  - intros Hne. unfold _indexify, set_index. rewrite Hmissing.
    destruct missing; [done|reflexivity].
  - intros Hnone Hlen.
    destruct (_indexify df) as [t|e] eqn:Hrun.
    + apply indexify_shape in Hrun as (df1 & Hset & Hlen1 & _).
      apply set_index_columns in Hset. exfalso. apply Hlen.
      rewrite <- (filter_partition_length
                    (fun c => bool_decide (c ∈ map L1 ["pipe"; "pos"])) (columns df)).
      rewrite <- Hset, Hlen1.
      unfold missing in Hnone. cbn [List.filter] in Hnone.
      destruct (bool_decide_reflect (L1 "pipe" ∈ columns df)) as [Hpipe|]; [|discriminate].
      destruct (bool_decide_reflect (L1 "pos" ∈ columns df)) as [Hpos|]; [|discriminate].
      assert (Hperm : Permutation
                (List.filter (fun c => bool_decide (c ∈ map L1 ["pipe"; "pos"])) (columns df))
                [L1 "pipe"; L1 "pos"]).
      { apply NoDup_Permutation.
        - by apply NoDup_list_filter.
        - apply NoDup_cons. split; [by intros [=]%list_elem_of_singleton|].
          apply NoDup_singleton.
        - intros c. rewrite list_elem_of_In, List.filter_In, <- list_elem_of_In.
          rewrite bool_decide_eq_true. cbn [map].
          rewrite !elem_of_cons, elem_of_nil.
          split; [tauto|]. intros [->|[->|[]]]; auto. }
      by rewrite (Permutation_length Hperm).
    + unfold _indexify in Hrun.
      destruct (set_index ["pipe"; "pos"] df) as [df1|e1] eqn:Hset.
      * cbn [res_bind] in Hrun.
        change (from_arrays arrays) with (Ok (A := list label) code_labels) in Hrun.
        cbn [res_bind] in Hrun. unfold set_columns in Hrun.
        destruct (Nat.eqb _ _) eqn:Heq; [|cbn [res_bind] in Hrun; congruence].
        cbn [res_bind] in Hrun. unfold sort_columns in Hrun. cbn [columns] in Hrun.
        change (forallb is_L1 code_labels
                || forallb (fun c => negb (is_L1 c)) code_labels) with true in Hrun.
        discriminate.
      * exfalso. unfold set_index in Hset. rewrite Hmissing, Hnone in Hset.
        unfold missing in Hnone. cbn [List.filter] in Hnone.
        destruct (bool_decide_reflect (L1 "pipe" ∈ columns df)) as [Hpipe|]; [|discriminate].
        destruct (bool_decide_reflect (L1 "pos" ∈ columns df)) as [Hpos|]; [|discriminate].
        cbn [forallb] in Hset.
        rewrite !Hsel, !filter_eq_present in Hset by done.
        rewrite !bool_decide_eq_true_2 in Hset by done. discriminate.
  - intros Hnone Hlen.
    unfold missing in Hnone. cbn [List.filter] in Hnone.
    destruct (bool_decide_reflect (L1 "pipe" ∈ columns df)) as [Hpipe|]; [|discriminate].
    destruct (bool_decide_reflect (L1 "pos" ∈ columns df)) as [Hpos|]; [|discriminate].
    eexists. apply indexify_shape. eexists.
    split; [apply set_index_ok; rewrite Hsel; by apply filter_eq_present|].
    split; [|reflexivity]. cbn [columns].
    pose proof (filter_partition_length
                  (fun c => bool_decide (c ∈ [L1 "pipe"; L1 "pos"])) (columns df)) as Hsum.
    assert (Hperm : Permutation
              (List.filter (fun c => bool_decide (c ∈ [L1 "pipe"; L1 "pos"])) (columns df))
              [L1 "pipe"; L1 "pos"]).
    { apply NoDup_Permutation.
      - by apply NoDup_list_filter.
      - apply NoDup_cons. split; [by intros [=]%list_elem_of_singleton|].
        apply NoDup_singleton.
      - intros c. rewrite list_elem_of_In, List.filter_In, <- list_elem_of_In.
        rewrite bool_decide_eq_true, !elem_of_cons, elem_of_nil.
        split; [tauto|]. intros [->|[->|[]]]; auto. }
    rewrite (Permutation_length Hperm) in Hsum. simpl in Hsum. lia.
Qed.

Lemma set_index_rows df df1 :
  set_index ["pipe"; "pos"] df = Ok df1 →
  rows df1
  = map (fun r => (key_of df r,
                   map snd (List.filter
                              (fun cv => negb (bool_decide (cv.1 ∈ [L1 "pipe"; L1 "pos"])))
                              (zip (columns df) r.2))))
        (rows df).
Proof.
  unfold set_index.
  destruct (List.filter _ ["pipe"; "pos"]); [|discriminate].
  destruct (forallb _ _); [|discriminate]. intros [= <-]. cbn [rows].
  apply map_ext. intros r. unfold key_of, under. cbn [flat_map map].
  by rewrite app_nil_r.
Qed.

Lemma filter_zip_length {A B} (p : A → bool) (l : list A) (vals : list B) :
  length vals = length l →
  length (List.filter (fun cv => p cv.1) (zip l vals)) = length (List.filter p l).
Proof.
  revert vals. induction l as [|x l IH]; intros [|v vals]; simpl; try done.
  intros [= Hlen]. destruct (p x); simpl; by rewrite IH.
Qed.

(** X14.  What a successful reshape returns is in order and complete.
    Its rows are sorted by (pipe, pos) and its eight column labels are
    sorted; and for a flat table whose rows have one cell per column,
    the rows of the result are the rows of the flat table in another
    order, each with its pipe and pos cells as index key and its other
    eight cells, rearranged, as values: no cell is lost and none is made
    up. *)
Theorem indexify_sorted_and_complete df t :
  (∀ a b, index_le a b = true ∨ index_le b a = true) →
  _indexify df = Ok t →
  sorted (fun r1 r2 => key_le r1.1 r2.1) (rows t) = true
  ∧ sorted label_le (columns t) = true
  ∧ length (columns t) = 8
  ∧ (Forall (fun r => length r.2 = length (columns df)) (rows df) →
     ∃ rows',
       Permutation (rows t) rows'
       ∧ Forall2 (fun r r' =>
                    r'.1 = key_of df r
                    ∧ Permutation r'.2
                        (map snd (List.filter
                                    (fun cv => negb (bool_decide
                                                       (cv.1 ∈ [L1 "pipe"; L1 "pos"])))
                                    (zip (columns df) r.2))))
                 (rows df) rows').
Proof.
  intros Htotal (df1 & Hset & Hlen & ->)%indexify_shape. cbn [rows columns].
  split; [|split; [reflexivity|split; [reflexivity|]]].
  { unfold reshaped_rows. apply stable_sort_sorted. intros r1 r2. by apply key_le_total. }
  intros Hrows. eexists. split; [apply stable_sort_perm|].
  rewrite (set_index_rows _ _ Hset), map_map.
  apply Forall2_fmap_r, Forall_Forall2_diag.
  eapply Forall_impl; [exact Hrows|]. intros r Hr. cbn [fst snd].
  split; [reflexivity|].
  set (vals := map snd (List.filter _ (zip (columns df) r.2))).
  assert (Hvals : length vals = 8).
  { unfold vals. rewrite length_map.
    pose proof (filter_zip_length
                  (fun c => negb (bool_decide (c ∈ [L1 "pipe"; L1 "pos"])))
                  (columns df) r.2 Hr) as Hz.
    cbv beta in Hz. rewrite Hz.
    rewrite <- Hlen, (set_index_columns ["pipe"; "pos"] _ _ Hset). reflexivity. }
  etrans; [apply Permutation_map, stable_sort_perm|].
  rewrite snd_zip_short; [done|].
  change (length code_labels) with 8. lia.
Qed.

End ReshapeOutcome.

(** ** The entry point *)

Section EntryPoint.
Context `{Lib : Libraries}.

(** X15.  [Procesor.run] with its default [n_jobs=2] works in parallel
    mode.  For a frame of files whose column labels are all different,
    what it writes has as header the columns of the frame other than
    ["file_name"] followed by the eight derived columns, and one line
    per row of the frame, in the order of the frame, made from the
    record of that row. *)
Theorem run_writes_one_line_per_file dfp completion h h' out :
  NoDup (Pipe.columns dfp) →
  Procesor.run dfp 2 completion h = (h', Ok out) →
  let pipe := __init__ dfp Procesor.channel_mapper 2 true 3 in
  out.1 = List.filter (fun c => negb (bool_decide (c = L1 "file_name")))
                      (Pipe.columns dfp)
          ++ derived_columns
  ∧ length out.2 = length (rows dfp)
  ∧ ∃ recs,
      Forall2 (fun r rec => unit_of_work pipe r = Ok rec) (rows dfp) recs
      ∧ out.2 = map (fun rec => map (fun c => default (Num nan) (dict_get rec c)) out.1)
                    recs.
Proof.
  intros Hnd Hrun pipe. unfold Procesor.run in Hrun. fold pipe in Hrun.
  apply bind_ok in Hrun as ([self' tbl] & h1 & Hproc & [-> ->]%ret_ok).
  cbn [fst snd Procesor.to_csv].
  pose proof (parallel_table_columns_aux pipe false completion h h1 self' tbl
                ltac:(done) Hnd Hproc) as Hcols.
  destruct (process_returns _ _ _ _ _ _ _ Hproc) as (recs & Hunits & Hrows).
  split; [exact Hcols|]. split.
  - rewrite Hrows, !length_map. symmetry. exact (Forall2_length _ _ _ Hunits).
  - exists recs. split; [exact Hunits|]. rewrite Hrows, map_map. reflexivity.
Qed.

End EntryPoint.
End PipeFacts.

(** * The theorems at concrete inputs, and where the design document
      departs from the code *)

Module Examples.
Import Pipe Sym PipeFacts.

Lemma cell_le_total (a b : cell_of pyscalar sfloat) :
  cell_le a b = true ∨ cell_le b a = true.
Proof.
  destruct a as [[x|x]|x], b as [[y|y]|y]; simpl; auto.
  - destruct (Z.leb_spec x y); [auto|]. right. apply Z.leb_le. lia.
  - apply String.leb_total.
Qed.

(** ** Conditioning *)

Lemma filter_in_place_witness :
  filter 0 heap0 = (heap1, Ok 0)
  ∧ length heap1 = length heap0
  ∧ ∀ l, l ≠ 0 → heap1 !! l = heap0 !! l.
Proof.
  assert (Hrun : filter 0 heap0 = (heap1, Ok 0)) by reflexivity.
  split; [exact Hrun|].
  destruct (filter_in_place 0 heap0 heap1 0 Hrun) as (_ & Hlen & Hframe & _).
  split; [exact Hlen|exact Hframe].
Defined.

(** C4, as the design document has it, fails: the table that was handed
    to [filter] no longer holds what it held, and what [filter] hands
    back is that same table (reference [0]), not a new one. *)
Lemma filter_overwrites_its_input :
  filter 0 heap0 = (heap1, Ok 0)
  ∧ heap0 !! 0 = Some (OTrace trace0)
  ∧ heap1 !! 0 ≠ Some (OTrace trace0)
  ∧ length heap1 = 1.
Proof.
  split; [reflexivity|]. split; [reflexivity|].
  split; [|reflexivity]. intros H. discriminate H.
Qed.

Lemma filter_three_columns_witness :
  filter 0 heap0 = (heap1, Ok 0)
  ∧ ∃ t t', heap0 !! 0 = Some (OTrace t) ∧ heap1 !! 0 = Some (OTrace t')
      ∧ trace_get t' "sig_gen" = trace_get t "sig_gen"
      ∧ trace_get t' "sec_volt" = res_bind (trace_get t "sec_volt") butter_filtfilt.
Proof.
  assert (Hrun : filter 0 heap0 = (heap1, Ok 0)) by reflexivity.
  split; [exact Hrun|].
  destruct (filter_three_columns 0 heap0 heap1 0 Hrun) as (t & t' & Ht & Ht' & _ & Hcols).
  exists t, t'. split; [exact Ht|]. split; [exact Ht'|].
  split; [exact (Hcols "sig_gen")|exact (Hcols "sec_volt")].
Defined.

(** C5, as the design document has it, fails: the drive channel
    ["res_volt"], from which the primary current is fitted, goes through
    the filter like the two response channels. *)
Lemma drive_channel_is_filtered :
  ∃ t', filter 0 heap0 = (heap1, Ok 0)
        ∧ heap1 !! 0 = Some (OTrace t')
        ∧ trace_get trace0 "res_volt" = Ok (ARaw "a.csv" "b" 200)
        ∧ trace_get t' "res_volt"
          = Ok (AFiltfilt (AButterB 8 (FLit (1 # 100))) (AButterA 8 (FLit (1 # 100)))
                          (ARaw "a.csv" "b" 200) 150)
        ∧ trace_get t' "res_volt" ≠ trace_get trace0 "res_volt".
Proof.
  eexists. split; [reflexivity|]. split; [reflexivity|]. split; [reflexivity|].
  split; [reflexivity|]. intros H. discriminate H.
Qed.

Lemma filter_parameters_witness :
  heap0 !! 0 = Some (OTrace trace0)
  ∧ ((∃ h', filter 0 heap0 = (h', Ok 0))
     ↔ ∀ col, col ∈ filter_cols →
         ∃ x y, trace_get trace0 col = Ok x
                ∧ filtfilt (butter 8 (float_lit (1 # 100))).1
                           (butter 8 (float_lit (1 # 100))).2 x 150 = Ok y
                ∧ alen y = nsamples trace0).
Proof.
  split; [reflexivity|].
  exact (proj1 (filter_parameters 0 heap0 trace0 eq_refl)).
Defined.

(** ** One file *)

Lemma process_file_record_witness :
  _process_file pipe_sequential (Key (PStr "a.csv")) 0 [ODict keys0] = (heap2, Ok 0)
  ∧ ∃ d', heap2 !! 0 = Some (ODict d')
          ∧ ∀ k, k ∈ dict_keys d' ↔ k ∈ dict_keys keys0 ∨ k ∈ derived_columns.
Proof.
  assert (Hrun : _process_file pipe_sequential (Key (PStr "a.csv")) 0 [ODict keys0]
                 = (heap2, Ok 0)) by reflexivity.
  split; [exact Hrun|].
  destruct (process_file_record _ _ _ _ _ _ Hrun)
    as (tbl & df & t & x_res & x_sec & x_rec & h_i_prim & h_v_sec & h_v_rec
        & h_z_prim_sec & h_z_prim_rec & h_z_sec_rec & d & d'
        & _ & _ & _ & _ & _ & (_ & Hd & Hd') & Hkeys & _).
  exists d'. split; [exact Hd'|]. injection Hd as <-. exact Hkeys.
Defined.

Lemma harmonic_distortion_fields_witness :
  _process_file (__init__ log3 mapper 1 true 3) (Key (PStr "a.csv")) 0 [ODict keys0]
  = (heap2, Ok 0)
  ∧ ∃ d' h_v_sec a_sec,
      heap2 !! 0 = Some (ODict d')
      ∧ getitem (amplitudes h_v_sec) 1 = Ok a_sec
      ∧ dict_get d' (L1 "sec_harm_db")
        = Some (Num (fmul (float_lit 10)
                          (np_log10 (fdiv (fpow a_sec 2)
                                          (np_sum (apow (amplitudes h_v_sec) 2)))))).
Proof.
  assert (Hrun : _process_file (__init__ log3 mapper 1 true 3) (Key (PStr "a.csv")) 0
                   [ODict keys0] = (heap2, Ok 0)) by reflexivity.
  split; [exact Hrun|].
  destruct (harmonic_distortion_fields log3 mapper 1 true 3 _ _ _ _ _ Hrun)
    as (tbl & df & t & x_sec & x_rec & h_v_sec & h_v_rec & a_sec & a_rec & d'
        & _ & _ & _ & _ & _ & _ & _ & Ha & _ & Hd' & Hsec & _).
  exists d', h_v_sec, a_sec. split; [exact Hd'|]. split; [exact Ha|exact Hsec].
Defined.

(** ** The batch *)

Lemma records3_units :
  Forall2 (fun r rec => unit_of_work pipe_parallel r = Ok rec) (rows log3) records3.
Proof. repeat constructor. Qed.

Lemma process_row_order_witness :
  ∃ h' self' tbl,
    process pipe_parallel false [2; 0; 1] [] = (h', Ok (self', tbl)).
Proof.
  apply (proj2 (process_row_order pipe_parallel false [2; 0; 1] []) records3).
  - discriminate.
  - exact records3_units.
  - intros _ i Hi. simpl in Hi.
    destruct i as [|[|[|i]]]; [repeat constructor..|lia].
Defined.

(** The table is the same whichever task finishes first. *)
Lemma completion_order_is_immaterial :
  res_bind (process pipe_parallel false [2; 0; 1] []).2 (fun st => Ok st.2) = Ok table3
  ∧ res_bind (process pipe_parallel false [0; 1; 2] []).2 (fun st => Ok st.2) = Ok table3
  ∧ res_bind (process pipe_parallel false [1; 2; 0] []).2 (fun st => Ok st.2) = Ok table3
  ∧ rows table3 = map (table_row (columns table3)) records3.
Proof. repeat split; reflexivity. Qed.

(** In sequential mode [_process_file] has already written the derived
    fields into the last [key_dict] when the column list is built from
    it, so the table names the derived columns twice. *)
Lemma sequential_table_columns :
  res_bind (process pipe_sequential false [] []).2 (fun st => Ok (columns st.2))
  = Ok ([L1 "pipe"; L1 "pos"] ++ derived_columns ++ derived_columns)
  ∧ res_bind (process pipe_parallel false [0; 1; 2] []).2 (fun st => Ok (columns st.2))
    = Ok ([L1 "pipe"; L1 "pos"] ++ derived_columns).
Proof. split; reflexivity. Qed.

Lemma process_empty_batch_witness :
  rows (df_log pipe_empty) = []
  ∧ process pipe_empty false [] [] = ([], Err (UnboundLocalError "key_dict")).
Proof.
  split; [reflexivity|]. exact (process_empty_batch pipe_empty false [] [] eq_refl).
Defined.

(** ** The reshape *)

Lemma indexify_keeps_duplicates_witness :
  ∃ t, _indexify flat3 = Ok t
       ∧ index_names t = ["pipe"; "pos"]
       ∧ length (rows t) = length (rows flat3)
       ∧ Permutation (map fst (rows t)) (map (key_of flat3) (rows flat3)).
Proof. apply (indexify_keeps_duplicates flat3); reflexivity. Defined.

(** C7, as the design document has it, fails: the second and third row
    of the flat table share (pipe, pos), and the reshape returns a
    table, which holds them both. *)
Lemma duplicate_key_is_accepted :
  (∃ r1 r2, rows flat3 !! 1 = Some r1 ∧ rows flat3 !! 2 = Some r2
            ∧ key_of flat3 r1 = key_of flat3 r2)
  ∧ _indexify flat3 = Ok reshaped3
  ∧ map fst (rows reshaped3)
    = [[Key (PStr "P1"); Key (PInt 1)];
       [Key (PStr "P1"); Key (PInt 1)];
       [Key (PStr "P1"); Key (PInt 2)]].
Proof.
  split; [eexists _, _; repeat split; reflexivity|].
  split; reflexivity.
Qed.

Lemma indexify_twice_witness :
  _indexify flat3 = Ok reshaped3
  ∧ _indexify reshaped3 = Err (KeyError [L1 "pipe"; L1 "pos"])
  ∧ sort_columns reshaped3 = Ok reshaped3
  ∧ sort_index reshaped3 = reshaped3.
Proof.
  assert (Hrun : _indexify flat3 = Ok reshaped3) by reflexivity.
  split; [exact Hrun|].
  exact (indexify_twice flat3 reshaped3 cell_le_total Hrun).
Defined.

(** C8, as the design document has it, fails: reshaping the reshaped
    table does not give the reshaped table back, it gives an error. *)
Lemma reshape_of_reshaped_fails :
  _indexify flat3 = Ok reshaped3
  ∧ _indexify reshaped3 = Err (KeyError [L1 "pipe"; L1 "pos"])
  ∧ _indexify reshaped3 ≠ Ok reshaped3.
Proof.
  split; [reflexivity|]. split; [reflexivity|].
  intros H. discriminate H.
Qed.

Lemma indexify_labels_witness :
  columns flat3 = L1 "pipe" :: L1 "pos" :: derived_columns
  ∧ Forall (fun r => length r.2 = 10) (rows flat3)
  ∧ ∃ t, _indexify flat3 = Ok t
         ∧ relabelled flat3 t "sec_rec_amp"
             (fun L => bool_decide (L = L3 "sec" "receiver" "amplitude")).
Proof.
  assert (Hrows : Forall (fun r => length r.2 = 10) (rows flat3))
    by (repeat constructor).
  split; [reflexivity|]. split; [exact Hrows|].
  destruct (indexify_labels flat3 eq_refl Hrows)
    as (t & Ht & _ & _ & _ & _ & _ & Hsec & _).
  exists t. split; [exact Ht|exact Hsec].
Defined.

(** C9, as the design document has it, fails: no column of the reshaped
    table has the driver label ["secondary"]; the cells of
    [sec_rec_amp] (5, 15 and 25 in the flat table) stand under
    ("sec", "receiver", "amplitude"). *)
Lemma secondary_driver_is_labelled_sec :
  _indexify flat3 = Ok reshaped3
  ∧ map (under (columns flat3) (L1 "sec_rec_amp")) (map snd (rows flat3))
    = [[Num (FLit 5)]; [Num (FLit 15)]; [Num (FLit 25)]]
  ∧ map (under (columns reshaped3) (L3 "sec" "receiver" "amplitude"))
        (map snd (rows reshaped3))
    = [[Num (FLit 15)]; [Num (FLit 25)]; [Num (FLit 5)]]
  ∧ map (under (columns reshaped3) (L3 "secondary" "receiver" "amplitude"))
        (map snd (rows reshaped3))
    = [[]; []; []]
  ∧ (L3 "secondary" "receiver" "amplitude" ∉ columns reshaped3)
  ∧ (L3 "secondary" "receiver" "phase" ∉ columns reshaped3).
Proof.
  split; [reflexivity|]. split; [reflexivity|].
  split; [reflexivity|]. split; [reflexivity|].
  split; intros Hin; apply list_elem_of_In in Hin; cbn in Hin;
    repeat (destruct Hin as [Hin|Hin]; [discriminate Hin|]); exact Hin.
Qed.

(** ** Failures of the conditioning step *)

Lemma filter_fails_untouched_witness :
  filter 0 heap_short = (heap_short, Err too_short).
Proof.
  apply (filter_fails_untouched (Lib := libraries) 0 heap_short trace_short too_short).
  - reflexivity.
  - right. exists (ARaw "short.csv" "b" 100). split; reflexivity.
Defined.

Lemma filter_fails_partway_witness :
  ∃ t1, filter 0 heap_nosec
        = (<[0 := OTrace t1]> heap_nosec, Err (KeyError [L1 "sec_volt"]))
        ∧ trace_get t1 "res_volt" = Ok res_volt_filtered
        ∧ ∀ c, c ≠ "res_volt" → trace_get t1 c = trace_get trace_nosec c.
Proof.
  apply (filter_fails_partway (Lib := libraries) 0 heap_nosec trace_nosec
           (ARaw "a.csv" "b" 200) res_volt_filtered (KeyError [L1 "sec_volt"]));
    reflexivity.
Defined.

(** ** One file, failures included *)

Lemma process_file_frame_witness :
  length heap2 = 2
  ∧ (∀ l, l ≠ 0 → l < 1 → heap2 !! l = [ODict keys0] !! l)
  ∧ ∃ tbl t, CSV (Key (PStr "a.csv")) (float_lit (1000000000 # 1))
                 (channel_mapper pipe_sequential) = Ok tbl
             ∧ filtered {| nsamples := tbl.1; channels := tbl.2 |} = Ok t
             ∧ heap2 !! 1 = Some (OTrace t).
Proof.
  assert (Hrun : _process_file pipe_sequential (Key (PStr "a.csv")) 0 [ODict keys0]
                 = (heap2, Ok 0)) by reflexivity.
  exact (process_file_frame (Lib := libraries) _ _ _ _ _ _ Hrun).
Defined.

Lemma process_file_failure_keeps_keys_witness :
  record pipe_sequential (Key (PStr "short.csv")) keys0 = Err too_short
  ∧ ∀ l, l < 1 → heap_failed !! l = [ODict keys0] !! l.
Proof.
  assert (Hrun : _process_file pipe_sequential (Key (PStr "short.csv")) 0 [ODict keys0]
                 = (heap_failed, Err too_short)) by reflexivity.
  assert (Hkeys : [ODict keys0] !! 0 = Some (ODict keys0)) by reflexivity.
  exact (process_file_failure_keeps_keys (Lib := libraries) _ _ _ _ _ _ _ Hkeys Hrun).
Defined.

(** ** The batch: columns of the table, and what the pipe keeps *)

Lemma process_needs_file_name_witness :
  process pipe_nofile false [] [] = ([], Err (KeyError [L1 "file_name"])).
Proof.
  apply (process_needs_file_name (Lib := libraries) pipe_nofile false [] []).
  - discriminate.
  - reflexivity.
Defined.

Lemma log3_columns_NoDup : NoDup (columns log3).
Proof.
  apply NoDup_ListNoDup.
  repeat (apply List.NoDup_cons; [cbn; intuition discriminate|]).
  apply List.NoDup_nil.
Qed.

Lemma parallel_run3 :
  process pipe_parallel false [2; 0; 1] [] = (heap3, Ok (pipe_parallel_done, table3)).
Proof. reflexivity. Qed.

Lemma sequential_run3 :
  process pipe_sequential false [] []
  = (heap3_sequential, Ok (pipe_sequential_done, table3_sequential)).
Proof. reflexivity. Qed.

Lemma parallel_table_columns_witness :
  columns table3 = [L1 "pipe"; L1 "pos"] ++ derived_columns.
Proof.
  apply (parallel_table_columns (Lib := libraries) pipe_parallel false [2; 0; 1] [] heap3
           pipe_parallel_done table3).
  - reflexivity.
  - exact log3_columns_NoDup.
  - exact parallel_run3.
Defined.

Lemma sequential_table_columns_twice_witness :
  columns table3_sequential
  = [L1 "pipe"; L1 "pos"] ++ derived_columns ++ derived_columns.
Proof.
  apply (sequential_table_columns_twice (Lib := libraries) pipe_sequential false [] [] heap3_sequential
           pipe_sequential_done table3_sequential).
  - discriminate.
  - exact log3_columns_NoDup.
  - intros c Hc Hin. apply list_elem_of_In in Hc, Hin. cbn in Hc, Hin.
    repeat (destruct Hc as [<-|Hc]; [intuition discriminate|]). exact Hc.
  - exact sequential_run3.
Defined.

Lemma sequential_table_never_reshapes_witness :
  (n_jobs pipe_sequential ≤ 1)%Z
  ∧ process pipe_sequential false [] []
    = (heap3_sequential, Ok (pipe_sequential_done, table3_sequential))
  ∧ ∀ t, df_indexed pipe_sequential_done ≠ Ok t.
Proof.
  split; [discriminate|]. split; [exact sequential_run3|].
  apply (sequential_table_never_reshapes (Lib := libraries) pipe_sequential false [] [] heap3_sequential
           pipe_sequential_done table3_sequential).
  - discriminate.
  - exact sequential_run3.
Defined.

Lemma parallel_table_reshapes_witness :
  ∃ t, df_indexed pipe_parallel_done = Ok t
       ∧ index_names t = ["pipe"; "pos"]
       ∧ length (rows t) = 3.
Proof.
  apply (parallel_table_reshapes (Lib := libraries) pipe_parallel false [2; 0; 1] [] heap3
           pipe_parallel_done table3).
  - reflexivity.
  - exact log3_columns_NoDup.
  - intros c. reflexivity.
  - exact parallel_run3.
Defined.

Lemma process_stores_table_witness :
  df pipe_parallel_done = Ok table3
  ∧ df_indexed pipe_parallel_done = _indexify table3
  ∧ df_log pipe_parallel_done = log3.
Proof.
  destruct (process_stores_table (Lib := libraries) pipe_parallel false [2; 0; 1] [] heap3
              pipe_parallel_done table3 parallel_run3) as (Hdf & Hidx & Hlog & _).
  split; [exact Hdf|]. split; [exact Hidx|exact Hlog].
Defined.

(** ** The batch: which failure is reported *)

Lemma records_bad_units :
  Forall2 (fun r rec => unit_of_work pipe_bad_sequential r = Ok rec)
          [([], [Key (PStr "P1"); Key (PInt 1); Key (PStr "a.csv")])] records_bad.
Proof. repeat constructor. Qed.

Lemma sequential_first_failure_witness :
  (process pipe_bad_sequential false [] []).2 = Err too_short.
Proof.
  apply (sequential_first_failure (Lib := libraries) pipe_bad_sequential false [] []
           [([], [Key (PStr "P1"); Key (PInt 1); Key (PStr "a.csv")])]
           ([], [Key (PStr "P1"); Key (PInt 2); Key (PStr "short.csv")])
           [([], [Key (PStr "P1"); Key (PInt 3); Key (PInt 7)])]
           records_bad too_short).
  - discriminate.
  - reflexivity.
  - exact records_bad_units.
  - reflexivity.
Defined.

(** The third task fails before the second has finished, and its error
    is the one reported, although the second row fails too. *)
Lemma parallel_first_failure_witness :
  (process pipe_bad_parallel false [0; 2; 1] []).2 = Err TypeError
  ∧ unit_of_work pipe_bad_parallel
      ([], [Key (PStr "P1"); Key (PInt 2); Key (PStr "short.csv")])
    = Err too_short.
Proof.
  split; [|reflexivity].
  apply (parallel_first_failure (Lib := libraries) pipe_bad_parallel false [] [0] 2 [1]
           ([], [Key (PStr "P1"); Key (PInt 3); Key (PInt 7)]) TypeError).
  - reflexivity.
  - repeat constructor; eexists _, _; split; reflexivity.
  - intros j r' Hj. apply list_elem_of_singleton in Hj as ->.
    intros Hr. injection Hr as <-. reflexivity.
  - reflexivity.
  - reflexivity.
Defined.

(** ** The reshape: when it succeeds, and what it keeps *)

Lemma flat3_columns_NoDup : NoDup (columns flat3).
Proof.
  apply NoDup_ListNoDup.
  repeat (apply List.NoDup_cons; [cbn; intuition discriminate|]).
  apply List.NoDup_nil.
Qed.

Lemma indexify_outcome_witness :
  ∃ t, _indexify flat3 = Ok t.
Proof.
  destruct (indexify_outcome (Lib := libraries) flat3 flat3_columns_NoDup) as (_ & _ & Hok).
  - repeat constructor.
  - apply Hok; reflexivity.
Defined.

Lemma indexify_sorted_and_complete_witness :
  sorted (fun r1 r2 => key_le r1.1 r2.1) (rows reshaped3) = true
  ∧ sorted label_le (columns reshaped3) = true
  ∧ length (columns reshaped3) = 8.
Proof.
  destruct (indexify_sorted_and_complete (Lib := libraries) flat3 reshaped3 cell_le_total eq_refl)
    as (Hrows & Hcols & Hlen & _).
  split; [exact Hrows|]. split; [exact Hcols|exact Hlen].
Defined.

(** ** The entry point *)

Lemma run_writes_one_line_per_file_witness :
  written3.1 = [L1 "pipe"; L1 "pos"] ++ derived_columns
  ∧ length written3.2 = 3.
Proof.
  destruct (run_writes_one_line_per_file (Lib := libraries) log3 [2; 0; 1] [] heap3 written3
              log3_columns_NoDup eq_refl) as (Hhead & Hlen & _).
  split; [exact Hhead|exact Hlen].
Defined.

End Examples.
